(** * libmd: Markdown tables from CSV book records

    A shallow embedding of [src/main.py]: the author-name formatter
    [get_last_names] and the table renderer [md_from_csv], followed by the
    properties of the two functions.

    Conventions of the embedding.
    - A Python [str] is a [string]; each [ascii] stands for the code point of
      the same number, so the model covers text whose code points are below
      256.  Python orders strings by code point, which is the order of
      [String.compare].
    - A raised exception is the [Raise] case of [result].  The program
      raises [IndexError] (an index out of range in [get_last_names]),
      [AttributeError] ([get_last_names] called on a cell that is not a
      string) and [TypeError] ([sorted] comparing a string with NaN).
    - The data frame returned by [pd.read_csv] is a list of rows in file
      order.  The columns [Category], [Author(s)] and [Title] are used raw,
      so their cells carry the type pandas gave the column: [object], whose
      cells are strings or the missing value NaN, or [int64], whose cells
      are integers.  Frames in which one of these columns holds
      floating-point numbers or booleans are outside the embedding.  The
      columns [ISBN-10] and [ISBN-13] are used only through [str(...)], and
      their cells stand for that text.
    - The destination file is an [option string]: [None] when the path does
      not exist, [Some s] when it holds the text [s]. *)

From Stdlib Require Import String Ascii List ZArith Lia Bool DecimalString.
From Stdlib Require Import Sorting.Sorted Sorting.Permutation.
From Stdlib Require Import Structures.OrdersEx Classes.RelationClasses.
Import ListNotations.

Local Open Scope list_scope.
Local Open Scope string_scope.

(** ** Exceptions *)

Inductive exn : Type :=
| IndexError
| AttributeError
| TypeError.

Inductive result (A : Type) : Type :=
| Ok (a : A)
| Raise (e : exn).

Arguments Ok {A} a.
Arguments Raise {A} e.

Definition bind {A B : Type} (m : result A) (k : A -> result B) : result B :=
  match m with
  | Ok a => k a
  | Raise e => Raise e
  end.

Notation "x <- m ;; k" := (bind m (fun x => k))
  (at level 61, m at next level, right associativity).

(** ** Python built-ins used by the program *)

Module Py.

(** [str.isspace] on one character, for code points below 256. *)
Definition isspace (c : ascii) : bool :=
  let n := nat_of_ascii c in
  ((9 <=? n)%nat && (n <=? 13)%nat) || ((28 <=? n)%nat && (n <=? 32)%nat)
  || (n =? 133)%nat || (n =? 160)%nat.

Definition nonempty (s : string) : bool := negb (s =? "").

(** [sub in s]. *)
Fixpoint contains (sub s : string) : bool :=
  prefix sub s
  || match s with
     | EmptyString => false
     | String _ s' => contains sub s'
     end.

(** [s.split(sep)] for a non-empty [sep]: cut at every occurrence of [sep],
    scanning from the left; [skip] counts the characters of a matched
    separator that are still to be passed over, [cur] is the piece being
    read. *)
Fixpoint split_go (sep : string) (skip : nat) (cur s : string) : list string :=
  match s with
  | EmptyString => [cur]
  | String c s' =>
      match skip with
      | S k => split_go sep k cur s'
      | O =>
          if prefix sep s
          then cur :: split_go sep (String.length sep - 1) "" s'
          else split_go sep 0 (cur ++ String c "") s'
      end
  end.

Definition split (sep s : string) : list string := split_go sep 0 "" s.

(** [s.split()]: the maximal runs of non-space characters. *)
Fixpoint split_ws_go (cur s : string) : list string :=
  match s with
  | EmptyString => if nonempty cur then [cur] else []
  | String c s' =>
      if isspace c
      then (if nonempty cur then cur :: split_ws_go "" s' else split_ws_go "" s')
      else split_ws_go (cur ++ String c "") s'
  end.

Definition split_ws (s : string) : list string := split_ws_go "" s.

Fixpoint lstrip (s : string) : string :=
  match s with
  | EmptyString => ""
  | String c s' => if isspace c then lstrip s' else s
  end.

Fixpoint rstrip (s : string) : string :=
  match s with
  | EmptyString => ""
  | String c s' =>
      let r := rstrip s' in
      if isspace c && (r =? "") then "" else String c r
  end.

(** [s.strip()]. *)
Definition strip (s : string) : string := rstrip (lstrip s).

(** [sep.join(l)]. *)
Definition join (sep : string) (l : list string) : string := String.concat sep l.

Definition len {A : Type} (l : list A) : Z := Z.of_nat (List.length l).

(** [l[i]]: a negative index counts from the end; an index outside the list
    raises [IndexError]. *)
Definition index {A : Type} (l : list A) (i : Z) : result A :=
  let j := if (i <? 0)%Z then (i + len l)%Z else i in
  if (j <? 0)%Z then Raise IndexError
  else match nth_error l (Z.to_nat j) with
       | Some x => Ok x
       | None => Raise IndexError
       end.

(** [l[:i]]: a negative bound counts from the end; bounds are clamped. *)
Definition slice_to {A : Type} (l : list A) (i : Z) : list A :=
  let j := if (i <? 0)%Z then (i + len l)%Z else i in
  firstn (Z.to_nat j) l.

End Py.

(** ** [get_last_names] *)

(** The comprehension that builds [author_list]: the pieces between
    [" and "], each cut at commas, the empty pieces dropped, the kept ones
    stripped. *)
Definition author_list (authors : string) : list string :=
  map Py.strip
    (filter Py.nonempty
       (flat_map (fun part => Py.split "," part) (Py.split " and " authors))).

(** The body of the [else] branch once [parts] is known to be non-empty. *)
Definition last_name_of (parts : list string) : result string :=
  last_name <- Py.index parts (-1) ;;
  if last_name =? "Jr." then Py.index parts (-2) else Ok last_name.

(** One iteration of the [for author in author_list] loop, from the current
    [formatted_authors] to the next. *)
Definition format_author (formatted_authors : list string) (author : string)
  : result (list string) :=
  if Py.contains "et al." author
  then Ok (formatted_authors ++ [author])%list
  else
    let parts := Py.split_ws author in
    match parts with
    | [] => Ok formatted_authors
    | _ :: _ =>
        last_name <- last_name_of parts ;;
        Ok (formatted_authors ++ [last_name])%list
    end.

Fixpoint format_loop (formatted_authors : list string) (l : list string)
  : result (list string) :=
  match l with
  | [] => Ok formatted_authors
  | author :: rest =>
      fa <- format_author formatted_authors author ;;
      format_loop fa rest
  end.

(** [formatted_authors] as it stands when the loop is over. *)
Definition formatted_authors (authors : string) : result (list string) :=
  format_loop [] (author_list authors).

(** The two [return] statements. *)
Definition join_names (fa : list string) : result string :=
  if (1 <? Py.len fa)%Z
  then
    last <- Py.index fa (-1) ;;
    Ok (Py.join ", " (Py.slice_to fa (-1)) ++ " & " ++ last)
  else Py.index fa 0.

Definition get_last_names (authors : string) : result string :=
  fa <- formatted_authors authors ;;
  join_names fa.

(** ** The data frame *)

(** The types [pd.read_csv] gives the columns the program uses raw.
    [object]: the cells are strings, an empty cell being the missing value
    NaN.  [int64]: every cell of the column is an integer. *)
Inductive dtype : Type :=
| object
| int64.

Definition cell (d : dtype) : Type :=
  match d with
  | object => option string
  | int64 => Z
  end.

Module Cell.

(** [str(x)], which is also what an f-string writes for [{x}]. *)
Definition str {d : dtype} : cell d -> string :=
  match d as d0 return cell d0 -> string with
  | object => fun x => match x with
                       | Some s => s
                       | None => "nan"
                       end
  | int64 => fun z => NilZero.string_of_int (Z.to_int z)
  end.

(** [pd.isna(x)]. *)
Definition isna {d : dtype} : cell d -> bool :=
  match d as d0 return cell d0 -> bool with
  | object => fun x => match x with
                       | Some _ => false
                       | None => true
                       end
  | int64 => fun _ => false
  end.

(** [x == y]: NaN is equal to nothing, itself included. *)
Definition eqb {d : dtype} : cell d -> cell d -> bool :=
  match d as d0 return cell d0 -> cell d0 -> bool with
  | object => fun x y => match x, y with
                         | Some a, Some b => a =? b
                         | _, _ => false
                         end
  | int64 => Z.eqb
  end.

(** The identity [unique] goes by: NaN counts as one value. *)
Definition same {d : dtype} : cell d -> cell d -> bool :=
  match d as d0 return cell d0 -> cell d0 -> bool with
  | object => fun x y => match x, y with
                         | Some a, Some b => a =? b
                         | None, None => true
                         | _, _ => false
                         end
  | int64 => Z.eqb
  end.

(** [x < y]: between a string and NaN, which is a float, it raises
    [TypeError]. *)
Definition lt {d : dtype} : cell d -> cell d -> result bool :=
  match d as d0 return cell d0 -> cell d0 -> result bool with
  | object => fun x y => match x, y with
                         | Some a, Some b => Ok (String.ltb a b)
                         | None, None => Ok false
                         | _, _ => Raise TypeError
                         end
  | int64 => fun x y => Ok (x <? y)%Z
  end.

(** The order [sort_values] puts a column in: ascending, NaN last. *)
Definition leb {d : dtype} : cell d -> cell d -> bool :=
  match d as d0 return cell d0 -> cell d0 -> bool with
  | object => fun x y => match x, y with
                         | Some a, Some b => String.leb a b
                         | _, None => true
                         | None, Some _ => false
                         end
  | int64 => Z.leb
  end.

End Cell.

(** [get_last_names(x)] on a raw cell: on anything but a string the first
    statement, [authors.split(" and ")], raises [AttributeError]. *)
Definition get_last_names_of {d : dtype} : cell d -> result string :=
  match d as d0 return cell d0 -> result string with
  | object => fun x => match x with
                       | Some authors => get_last_names authors
                       | None => Raise AttributeError
                       end
  | int64 => fun _ => Raise AttributeError
  end.

(** ** Sorting *)

Section InsertionSort.

Variable A : Type.
Variable leb : A -> A -> bool.

(** [x] goes in front of the first element it does not exceed, so it stays
    ahead of the elements it ties with. *)
Fixpoint insert (x : A) (l : list A) : list A :=
  match l with
  | [] => [x]
  | y :: l' => if leb x y then x :: l else y :: insert x l'
  end.

(** A stable sort: the elements are inserted from the right. *)
Definition stable_sort (l : list A) : list A := fold_right insert [] l.

End InsertionSort.

Arguments insert {A} leb x l.
Arguments stable_sort {A} leb l.

Section SortedBy.

Variable A : Type.
Variable lt : A -> A -> result bool.

(** The same insertion with a comparison [<] that may raise: [x] passes the
    elements that are less than it. *)
Fixpoint insert_lt (x : A) (l : list A) : result (list A) :=
  match l with
  | [] => Ok [x]
  | y :: l' =>
      b <- lt y x ;;
      if b
      then (r <- insert_lt x l' ;; Ok (y :: r))
      else Ok (x :: l)
  end.

Fixpoint sorted_by (l : list A) : result (list A) :=
  match l with
  | [] => Ok []
  | x :: l' =>
      s <- sorted_by l' ;;
      insert_lt x s
  end.

End SortedBy.

Arguments insert_lt {A} lt x l.
Arguments sorted_by {A} lt l.

(** [sorted(...)] on the values of a column: a stable sort by [<], which
    raises when a comparison does. *)
Definition sorted {d : dtype} (l : list (cell d)) : result (list (cell d)) :=
  sorted_by Cell.lt l.

(** [Series.unique()]: the distinct values in order of first appearance. *)
Fixpoint unique {d : dtype} (l : list (cell d)) : list (cell d) :=
  match l with
  | [] => []
  | x :: l' => x :: filter (fun y => negb (Cell.same y x)) (unique l')
  end.

(** ** [md_from_csv] *)

Definition nl : string := String "010" "".

(** The text of the third cell of a data row. *)
Definition isbn_cell (isbn_type isbn : string) : string :=
  if isbn_type =? "Pre-ISBN" then "Pre-ISBN"
  else if isbn_type =? "No ISBN" then "No ISBN"
  else if isbn_type =? "LCCN" then "LCCN: " ++ isbn
  else isbn.

(** [f.write(s)] appends to the text written so far. *)
Definition write (f s : string) : string := f ++ s.

Definition table_header : string :=
  "| Author | Title | ISBN |" ++ nl ++ "| ------ | ----- | ---- |" ++ nl.

Section Frame.

(** The types of the columns [Category], [Author(s)] and [Title]. *)
Variables dc da dt : dtype.

(** One CSV record, with the five columns the program reads. *)
Record Row : Type := mkRow {
  Category : cell dc;
  Authors : cell da;
  Title : cell dt;
  ISBN_10 : string;
  ISBN_13 : string
}.

Definition DataFrame : Type := list Row.

(** A row of [category_df] once the ["Last Names"] column has been added. *)
Record NamedRow : Type := mkNamed {
  base : Row;
  Last_Names : string
}.

(** The sort key of [sort_values(by=["Last Names", "Title"])]. *)
Definition sort_key (r : NamedRow) : string * cell dt :=
  (Last_Names r, Title (base r)).

Definition key_leb (a b : NamedRow) : bool :=
  match String.compare (Last_Names a) (Last_Names b) with
  | Lt => true
  | Gt => false
  | Eq => Cell.leb (Title (base a)) (Title (base b))
  end.

(** [DataFrame.sort_values] on several columns is a stable lexicographic
    sort, each column in the order of its type, missing values last. *)
Definition sort_values (df : list NamedRow) : list NamedRow :=
  stable_sort key_leb df.

(** [df[df["Category"] == category]]. *)
Definition category_df (df : DataFrame) (category : cell dc) : list Row :=
  filter (fun r => Cell.eqb (Category r) category) df.

(** [category_df["Author(s)"].apply(get_last_names)], stored as the new
    column: the rows are visited in order and the first exception ends the
    visit. *)
Fixpoint add_last_names (rows : list Row) : result (list NamedRow) :=
  match rows with
  | [] => Ok []
  | r :: rest =>
      last_names <- get_last_names_of (Authors r) ;;
      named <- add_last_names rest ;;
      Ok (mkNamed r last_names :: named)
  end.

(** The body of the [for _, row in sorted_df.iterrows()] loop: the line that
    is written for one row. *)
Definition row_line (row : NamedRow) : string :=
  let last_names := Last_Names row in
  let title := Cell.str (Title (base row)) in
  let isbn_type := ISBN_10 (base row) in
  let isbn := ISBN_13 (base row) in
  if isbn_type =? "Pre-ISBN"
  then "| " ++ last_names ++ " | *" ++ title ++ "* | Pre-ISBN |" ++ nl
  else if isbn_type =? "No ISBN"
  then "| " ++ last_names ++ " | *" ++ title ++ "* | No ISBN |" ++ nl
  else if isbn_type =? "LCCN"
  then "| " ++ last_names ++ " | *" ++ title ++ "* | LCCN: " ++ isbn ++ " |" ++ nl
  else "| " ++ last_names ++ " | *" ++ title ++ "* | " ++ isbn ++ " |" ++ nl.

Fixpoint write_rows (f : string) (rows : list NamedRow) : string :=
  match rows with
  | [] => f
  | row :: rest => write_rows (write f (row_line row)) rest
  end.

(** The [for category in categories] loop, threading the text of the open
    file; an exception leaves the loop with what has been written. *)
Fixpoint write_categories (df : DataFrame) (categories : list (cell dc))
  (f : string) : result unit * string :=
  match categories with
  | [] => (Ok tt, f)
  | category :: rest =>
      let f := write f ("## " ++ Cell.str category ++ nl ++ nl) in
      match add_last_names (category_df df category) with
      | Raise e => (Raise e, f)
      | Ok named_df =>
          let sorted_df := sort_values named_df in
          let f := write f ("| Author | Title | ISBN |" ++ nl) in
          let f := write f ("| ------ | ----- | ---- |" ++ nl) in
          let f := write_rows f sorted_df in
          write_categories df rest (write f nl)
      end
  end.

(** [sorted(df["Category"].unique())]. *)
Definition categories (df : DataFrame) : result (list (cell dc)) :=
  sorted (unique (map Category df)).

(** [md_from_csv df md] runs the conversion on the parsed frame [df] with the
    destination file in state [md]; it gives the outcome and the state the
    destination is left in.  When [sorted] raises, the destination has not
    been opened and stays as it was.  [open(md_path, mode="w")] creates or
    truncates the file before anything is written, and leaving the [with]
    block, normally or by an exception, closes it with what was written. *)
Definition md_from_csv (df : DataFrame) (md : option string)
  : result unit * option string :=
  match categories df with
  | Raise e => (Raise e, md)
  | Ok cs =>
      let opened := "" in
      let (r, f) := write_categories df cs opened in
      (r, Some f)
  end.

(** *** The emitted document as a list of tables *)

Definition Table : Type := (cell dc * list NamedRow)%type.

Definition heading (category : cell dc) : string :=
  "## " ++ Cell.str category ++ nl ++ nl.

(** A data row as Markdown text: the three cells between bars, the title
    in italics. *)
Definition row_text (row : NamedRow) : string :=
  "| " ++ Last_Names row ++ " | *" ++ Cell.str (Title (base row)) ++ "* | "
  ++ isbn_cell (ISBN_10 (base row)) (ISBN_13 (base row)) ++ " |" ++ nl.

Definition render_table (t : Table) : string :=
  heading (fst t) ++ table_header
  ++ String.concat "" (map row_text (snd t)) ++ nl.

Definition render (ts : list Table) : string :=
  String.concat "" (map render_table ts).

(** The table of one category: its rows with their last names, sorted. *)
Definition table_of (df : DataFrame) (category : cell dc) : result Table :=
  named_df <- add_last_names (category_df df category) ;;
  Ok (category, sort_values named_df).

Fixpoint tables_of (df : DataFrame) (cs : list (cell dc))
  : result (list Table) :=
  match cs with
  | [] => Ok []
  | category :: rest =>
      t <- table_of df category ;;
      ts <- tables_of df rest ;;
      Ok (t :: ts)
  end.

Definition tables (df : DataFrame) : result (list Table) :=
  cs <- categories df ;;
  tables_of df cs.

End Frame.

Arguments mkRow {dc da dt} Category Authors Title ISBN_10 ISBN_13.
Arguments Category {dc da dt} r.
Arguments Authors {dc da dt} r.
Arguments Title {dc da dt} r.
Arguments ISBN_10 {dc da dt} r.
Arguments ISBN_13 {dc da dt} r.
Arguments mkNamed {dc da dt} base Last_Names.
Arguments base {dc da dt} n.
Arguments Last_Names {dc da dt} n.
Arguments sort_key {dc da dt} r.
Arguments key_leb {dc da dt} a b.
Arguments sort_values {dc da dt} df.
Arguments category_df {dc da dt} df category.
Arguments add_last_names {dc da dt} rows.
Arguments row_line {dc da dt} row.
Arguments write_rows {dc da dt} f rows.
Arguments write_categories {dc da dt} df categories f.
Arguments categories {dc da dt} df.
Arguments md_from_csv {dc da dt} df md.
Arguments heading {dc} category.
Arguments row_text {dc da dt} row.
Arguments render_table {dc da dt} t.
Arguments render {dc da dt} ts.
Arguments table_of {dc da dt} df category.
Arguments tables_of {dc da dt} df cs.
Arguments tables {dc da dt} df.

(** ** Notions used in the statements *)

(** [a] occurs in [s] as a contiguous piece. *)
Definition substring_of (a s : string) : Prop :=
  exists pre post, s = pre ++ a ++ post.

Definition str_lt (a b : string) : Prop := String.compare a b = Lt.

Definition str_le (a b : string) : Prop := String.compare a b <> Gt.

(** The lexicographic order on pairs of strings. *)
Definition lex_le (k1 k2 : string * string) : Prop :=
  str_lt (fst k1) (fst k2) \/ (fst k1 = fst k2 /\ str_le (snd k1) (snd k2)).

(** A cell that holds a value. *)
Definition present {d : dtype} (x : cell d) : Prop := Cell.isna x = false.

(** A missing cell. *)
Definition missing {d : dtype} (x : cell d) : Prop := Cell.isna x = true.

(** The strict order of the values of a column: strings by code point,
    integers by value; NaN is not in it. *)
Definition cell_lt {d : dtype} : cell d -> cell d -> Prop :=
  match d as d0 return cell d0 -> cell d0 -> Prop with
  | object => fun x y => match x, y with
                         | Some a, Some b => str_lt a b
                         | _, _ => False
                         end
  | int64 => Z.lt
  end.

(** The order of a sorted column: values ascending, NaN after them. *)
Definition cell_le {d : dtype} : cell d -> cell d -> Prop :=
  match d as d0 return cell d0 -> cell d0 -> Prop with
  | object => fun x y => match x, y with
                         | Some a, Some b => str_le a b
                         | _, None => True
                         | None, Some _ => False
                         end
  | int64 => Z.le
  end.

(** The order of the rows of a table: by last names, then by title. *)
Definition key_le {dc da dt : dtype} (a b : NamedRow dc da dt) : Prop :=
  str_lt (Last_Names a) (Last_Names b)
  \/ (Last_Names a = Last_Names b
      /\ cell_le (Title (base a)) (Title (base b))).

Definition has_key {dc da dt : dtype} (k : string * cell dt)
  (r : NamedRow dc da dt) : bool :=
  (Last_Names r =? fst k) && Cell.same (Title (base r)) (snd k).

(** The sort key as it reads in the written row. *)
Definition rendered_key {dc da dt : dtype} (r : NamedRow dc da dt)
  : string * string :=
  (Last_Names r, Cell.str (Title (base r))).

(** The three values of the [ISBN-10] column that are not ISBNs. *)
Definition sentinel (isbn_type : string) : Prop :=
  isbn_type = "Pre-ISBN" \/ isbn_type = "No ISBN" \/ isbn_type = "LCCN".

Definition no_space (s : string) : Prop :=
  Forall (fun c => Py.isspace c = false) (list_ascii_of_string s).

(** The entries of [author_list] for which the loop body appends a name:
    those with ["et al."] and those with at least one token. *)
Definition appends (author : string) : bool :=
  Py.contains "et al." author
  || match Py.split_ws author with
     | [] => false
     | _ :: _ => true
     end.


Definition no_comma (s : string) : Prop :=
  Forall (fun c => c <> ","%char) (list_ascii_of_string s).

(** The final token of a name. *)
Definition last_token (s : string) : string := last (Py.split_ws s) "".

(** A plain name: no ["et al."], at least one token, and a final token other
    than ["Jr."]. *)
Definition simple_name (s : string) : Prop :=
  Py.contains "et al." s = false
  /\ Py.split_ws s <> []
  /\ last_token s <> "Jr.".

(** A row whose author cell [get_last_names] can format. *)
Definition formattable {dc da dt : dtype} (r : Row dc da dt) : Prop :=
  exists last_names, get_last_names_of (Authors r) = Ok last_names.

(** ** Frames used as examples *)

(** A record of a frame whose three raw columns are strings, none
    missing. *)
Definition book (category authors title isbn_10 isbn_13 : string)
  : Row object object object :=
  @mkRow object object object
    (Some category) (Some authors) (Some title) isbn_10 isbn_13.

Definition example_df : DataFrame object object object :=
  [ book "Physics" "R. P. Feynman" "QED" "0-691-02417-0" "978-0-691-02417-2";
    book "Chemistry" "P. Atkins and J. de Paula" "Physical Chemistry" "LCCN" "2004003048";
    book "Physics" "J. D. Jackson" "Classical Electrodynamics" "Pre-ISBN" "nan";
    book "Physics" "A. Zee Jr." "Group Theory" "No ISBN" "nan" ].

(** A row with an ordinary ISBN. *)
Definition isbn_row : NamedRow object object object :=
  mkNamed (book "Physics" "R. P. Feynman" "QED"
             "0-123-45678-9" "978-0-123-45678-6") "Feynman".

(** A frame whose second category has an author field on which
    [get_last_names] raises. *)
Definition failing_df : DataFrame object object object :=
  [ book "Physics" "A. Zee" "Group Theory" "No ISBN" "nan";
    book "Poetry" "Jr." "Poems" "Pre-ISBN" "nan";
    book "Zoology" "C. Darwin" "Origin" "Pre-ISBN" "nan" ].

(** A frame with two rows of equal sort key. *)
Definition ties_df : DataFrame object object object :=
  [ book "Physics" "A. Zee" "Group Theory" "No ISBN" "first";
    book "Physics" "R. P. Feynman" "QED" "No ISBN" "second";
    book "Physics" "B. Zee" "Group Theory" "No ISBN" "third";
    book "Physics" "R. Feynman" "Lectures" "No ISBN" "fourth" ].

(** [example_df] with the rows of its two categories interleaved
    differently. *)
Definition reordered_df : DataFrame object object object :=
  [ book "Physics" "R. P. Feynman" "QED" "0-691-02417-0" "978-0-691-02417-2";
    book "Physics" "J. D. Jackson" "Classical Electrodynamics" "Pre-ISBN" "nan";
    book "Physics" "A. Zee Jr." "Group Theory" "No ISBN" "nan";
    book "Chemistry" "P. Atkins and J. de Paula" "Physical Chemistry" "LCCN" "2004003048" ].

(** A frame whose [Title] column holds integers only, which pandas types
    [int64]. *)
Definition numeric_titles_df : DataFrame object object int64 :=
  [ @mkRow object object int64 (Some "Novels") (Some "A. Writer") 10%Z "No ISBN" "nan";
    @mkRow object object int64 (Some "Novels") (Some "A. Writer") 2%Z "No ISBN" "nan" ].

(** A frame with a title missing. *)
Definition missing_title_df : DataFrame object object object :=
  [ @mkRow object object object (Some "Novels") (Some "A. Writer") None "No ISBN" "first";
    @mkRow object object object (Some "Novels") (Some "A. Writer") (Some "zebra") "No ISBN" "second";
    @mkRow object object object (Some "Novels") (Some "A. Writer") (Some "nab") "No ISBN" "third" ].

(** A frame whose only record has an empty [Category] cell. *)
Definition missing_category_df : DataFrame object object object :=
  [ @mkRow object object object None (Some "A. Zee") (Some "Group Theory") "No ISBN" "nan" ].

(** A frame whose [Category] column holds integers only. *)
Definition numeric_categories_df : DataFrame int64 object object :=
  [ @mkRow int64 object object 10%Z (Some "A. Zee") (Some "Group Theory") "No ISBN" "nan";
    @mkRow int64 object object 9%Z (Some "C. Darwin") (Some "Origin") "Pre-ISBN" "nan" ].

(** A frame with an empty [Category] cell among named categories. *)
Definition mixed_category_df : DataFrame object object object :=
  [ book "Physics" "A. Zee" "Group Theory" "No ISBN" "nan";
    @mkRow object object object None (Some "C. Darwin") (Some "Origin") "Pre-ISBN" "nan" ].

(** A frame with an empty [Author(s)] cell. *)
Definition missing_author_df : DataFrame object object object :=
  [ book "Physics" "A. Zee" "Group Theory" "No ISBN" "nan";
    @mkRow object object object (Some "Poetry") None (Some "Poems") "Pre-ISBN" "nan" ].

(** The rows of the category [Physics] of [reordered_df], with their last
    names, in file order. *)
Definition physics_named : list (NamedRow object object object) :=
  [ mkNamed (book "Physics" "R. P. Feynman" "QED"
               "0-691-02417-0" "978-0-691-02417-2") "Feynman";
    mkNamed (book "Physics" "J. D. Jackson" "Classical Electrodynamics"
               "Pre-ISBN" "nan") "Jackson";
    mkNamed (book "Physics" "A. Zee Jr." "Group Theory" "No ISBN" "nan")
      "Zee" ].

Definition chemistry_named : list (NamedRow object object object) :=
  [ mkNamed (book "Chemistry" "P. Atkins and J. de Paula"
               "Physical Chemistry" "LCCN" "2004003048") "Atkins & Paula" ].

(** The tables of [reordered_df]. *)
Definition reordered_tables : list (Table object object object) :=
  [ (Some "Chemistry", sort_values chemistry_named);
    (Some "Physics", sort_values physics_named) ].

(** ** Runs on concrete inputs *)

Example get_last_names_jr :
  get_last_names "Jane Smith Jr." = Ok "Smith".
Proof. reflexivity. Qed.

Example get_last_names_and :
  get_last_names "A. One and B. Two" = Ok "One & Two".
Proof. reflexivity. Qed.

Example get_last_names_commas :
  get_last_names "A. One, B. Two, C. Three" = Ok "One, Two & Three".
Proof. reflexivity. Qed.

Example get_last_names_et_al :
  get_last_names "J. Doe et al., A. B. Roe" = Ok "J. Doe et al. & Roe".
Proof. reflexivity. Qed.

Example get_last_names_blank_piece :
  get_last_names "A. One, , B. Two" = Ok "One & Two".
Proof. reflexivity. Qed.

Example md_from_csv_example :
  md_from_csv example_df None =
  (Ok tt, Some (
     "## Chemistry" ++ nl ++ nl ++
     "| Author | Title | ISBN |" ++ nl ++
     "| ------ | ----- | ---- |" ++ nl ++
     "| Atkins & Paula | *Physical Chemistry* | LCCN: 2004003048 |" ++ nl ++
     nl ++
     "## Physics" ++ nl ++ nl ++
     "| Author | Title | ISBN |" ++ nl ++
     "| ------ | ----- | ---- |" ++ nl ++
     "| Feynman | *QED* | 978-0-691-02417-2 |" ++ nl ++
     "| Jackson | *Classical Electrodynamics* | Pre-ISBN |" ++ nl ++
     "| Zee | *Group Theory* | No ISBN |" ++ nl ++
     nl)).
Proof. vm_compute. reflexivity. Qed.

Example md_from_csv_numeric_titles :
  md_from_csv numeric_titles_df None =
  (Ok tt, Some (
     "## Novels" ++ nl ++ nl ++
     "| Author | Title | ISBN |" ++ nl ++
     "| ------ | ----- | ---- |" ++ nl ++
     "| Writer | *2* | No ISBN |" ++ nl ++
     "| Writer | *10* | No ISBN |" ++ nl ++
     nl)).
Proof. vm_compute. reflexivity. Qed.

Example md_from_csv_missing_title :
  md_from_csv missing_title_df None =
  (Ok tt, Some (
     "## Novels" ++ nl ++ nl ++
     "| Author | Title | ISBN |" ++ nl ++
     "| ------ | ----- | ---- |" ++ nl ++
     "| Writer | *nab* | No ISBN |" ++ nl ++
     "| Writer | *zebra* | No ISBN |" ++ nl ++
     "| Writer | *nan* | No ISBN |" ++ nl ++
     nl)).
Proof. vm_compute. reflexivity. Qed.

Example md_from_csv_missing_category :
  md_from_csv missing_category_df None =
  (Ok tt, Some (
     "## nan" ++ nl ++ nl ++
     "| Author | Title | ISBN |" ++ nl ++
     "| ------ | ----- | ---- |" ++ nl ++
     nl)).
Proof. vm_compute. reflexivity. Qed.

Example md_from_csv_numeric_categories :
  md_from_csv numeric_categories_df None =
  (Ok tt, Some (
     "## 9" ++ nl ++ nl ++
     "| Author | Title | ISBN |" ++ nl ++
     "| ------ | ----- | ---- |" ++ nl ++
     "| Darwin | *Origin* | Pre-ISBN |" ++ nl ++
     nl ++
     "## 10" ++ nl ++ nl ++
     "| Author | Title | ISBN |" ++ nl ++
     "| ------ | ----- | ---- |" ++ nl ++
     "| Zee | *Group Theory* | No ISBN |" ++ nl ++
     nl)).
Proof. vm_compute. reflexivity. Qed.

Example md_from_csv_mixed_category :
  md_from_csv mixed_category_df (Some "earlier text") =
  (Raise TypeError, Some "earlier text").
Proof. vm_compute. reflexivity. Qed.

Example md_from_csv_missing_author :
  md_from_csv missing_author_df (Some "earlier text") =
  (Raise AttributeError, Some (
     "## Physics" ++ nl ++ nl ++
     "| Author | Title | ISBN |" ++ nl ++
     "| ------ | ----- | ---- |" ++ nl ++
     "| Zee | *Group Theory* | No ISBN |" ++ nl ++
     nl ++
     "## Poetry" ++ nl ++ nl)).
Proof. vm_compute. reflexivity. Qed.

(** ** Facts about the built-ins *)

Lemma len_nonneg {A : Type} (l : list A) : (0 <= Py.len l)%Z.
Proof. unfold Py.len. lia. Qed.

Lemma index_last {A : Type} (l : list A) (d : A) :
  l <> [] -> Py.index l (-1) = Ok (last l d).
Proof.
  intros Hne.
  destruct (exists_last Hne) as [front [x ->]].
  rewrite last_last.
  unfold Py.index, Py.len. rewrite length_app. cbn [List.length].
  replace (-1 <? 0)%Z with true by reflexivity.
  destruct (Z.ltb_spec (-1 + Z.of_nat (List.length front + 1)) 0) as [Hlt | _]; [lia |].
  replace (Z.to_nat (-1 + Z.of_nat (List.length front + 1))) with (List.length front) by lia.
  rewrite nth_error_app2 by lia.
  rewrite Nat.sub_diag. reflexivity.
Qed.

Lemma index_second_to_last {A : Type} (front : list A) (x y : A) :
  Py.index (front ++ [x; y]) (-2) = Ok x.
Proof.
  unfold Py.index, Py.len. rewrite length_app. cbn [List.length].
  replace (-2 <? 0)%Z with true by reflexivity.
  destruct (Z.ltb_spec (-2 + Z.of_nat (List.length front + 2)) 0) as [Hlt | _]; [lia |].
  replace (Z.to_nat (-2 + Z.of_nat (List.length front + 2))) with (List.length front) by lia.
  rewrite nth_error_app2 by lia.
  rewrite Nat.sub_diag. reflexivity.
Qed.

Lemma index_singleton_minus_two {A : Type} (x : A) :
  Py.index [x] (-2) = Raise IndexError.
Proof. reflexivity. Qed.

Lemma index_nil {A : Type} (i : Z) : Py.index (@nil A) i = Raise IndexError.
Proof.
  unfold Py.index, Py.len. cbn [List.length].
  destruct (i <? 0)%Z eqn:Hi.
  - replace (i + Z.of_nat 0 <? 0)%Z with true; [reflexivity |].
    symmetry. apply Z.ltb_lt. apply Z.ltb_lt in Hi. lia.
  - rewrite Hi. destruct (Z.to_nat i); reflexivity.
Qed.

Lemma slice_to_removelast {A : Type} (l : list A) :
  Py.slice_to l (-1) = removelast l.
Proof.
  unfold Py.slice_to, Py.len.
  replace (-1 <? 0)%Z with true by reflexivity.
  rewrite removelast_firstn_len.
  f_equal. lia.
Qed.

(** ** Facts about the loop of [get_last_names] *)

Lemma format_author_blank (fa : list string) :
  format_author fa "" = Ok fa.
Proof. reflexivity. Qed.

Lemma format_loop_blanks (fa l : list string) :
  Forall (fun a => a = "") l -> format_loop fa l = Ok fa.
Proof.
  induction 1 as [| a l Ha _ IH]; [reflexivity |].
  subst a. cbn [format_loop]. rewrite format_author_blank. exact IH.
Qed.

Lemma format_author_extends (fa fa' : list string) (author : string) :
  format_author fa author = Ok fa' ->
  fa' = fa \/ exists name, fa' = (fa ++ [name])%list.
Proof.
  unfold format_author.
  destruct (Py.contains "et al." author).
  - intros [= <-]. right. now exists author.
  - destruct (Py.split_ws author) as [| p ps]; [intros [= <-]; now left |].
    destruct (last_name_of (p :: ps)) as [n | e]; cbn [bind]; [| discriminate].
    intros [= <-]. right. now exists n.
Qed.

Lemma format_loop_extends (l fa names : list string) :
  format_loop fa l = Ok names -> exists ext, names = (fa ++ ext)%list.
Proof.
  revert fa. induction l as [| a l IH]; intros fa; cbn [format_loop].
  - intros [= <-]. exists []. now rewrite app_nil_r.
  - destruct (format_author fa a) as [fa' |] eqn:Hfa; cbn [bind]; [| discriminate].
    intros H. destruct (IH _ H) as [ext ->].
    destruct (format_author_extends _ _ _ Hfa) as [-> | [n ->]].
    + now exists ext.
    + exists (n :: ext). now rewrite <- app_assoc.
Qed.

Lemma join_names_many (names : list string) :
  (1 < List.length names)%nat ->
  join_names names =
  Ok (Py.join ", " (removelast names) ++ " & " ++ last names "").
Proof.
  intros Hlen. unfold join_names, Py.len.
  destruct (Z.ltb_spec 1 (Z.of_nat (List.length names))) as [_ | Hle]; [| lia].
  rewrite (index_last names "") by (intros ->; cbn in Hlen; lia).
  cbn [bind]. now rewrite slice_to_removelast.
Qed.

Lemma join_names_one (n : string) : join_names [n] = Ok n.
Proof. reflexivity. Qed.

Lemma join_names_none : join_names [] = Raise IndexError.
Proof. reflexivity. Qed.

(** ** Properties of [get_last_names] *)


(** C9: when the author field yields no non-empty author substring (every
    entry of [author_list], if any, is the empty string), the loop leaves
    [formatted_authors] empty, the final [formatted_authors[0]] is out of
    range, and [get_last_names] raises instead of returning. *)
Theorem no_author_raises (authors : string) :
  Forall (fun a => a = "") (author_list authors) ->
  formatted_authors authors = Ok []
  /\ Py.index (@nil string) 0 = Raise IndexError
  /\ get_last_names authors = Raise IndexError.
Proof.
  intros Hall.
  assert (Hfa : formatted_authors authors = Ok []).
  { unfold formatted_authors. now apply format_loop_blanks. }
  split; [exact Hfa |]. split; [reflexivity |].
  unfold get_last_names. rewrite Hfa. reflexivity.
Qed.

Lemma no_author_raises_witness :
  (Forall (fun a => a = "") (author_list "")
   /\ get_last_names "" = Raise IndexError)
  /\ (Forall (fun a => a = "") (author_list ", and  ,")
      /\ get_last_names ", and  ," = Raise IndexError).
Proof.
  split.
  - assert (H : Forall (fun a => a = "") (author_list "")) by constructor.
    split; [exact H |]. exact (proj2 (proj2 (no_author_raises "" H))).
  - assert (H : Forall (fun a => a = "") (author_list ", and  ,")).
    { vm_compute. repeat constructor. }
    split; [exact H |]. exact (proj2 (proj2 (no_author_raises ", and  ," H))).
Defined.

(** C7: when the loop ends with more than one formatted name the result is
    all names but the last joined with [", "], then [" & "], then the last
    name; when it ends with exactly one name the result is that name. *)
Theorem join_of_formatted_names (authors : string) (names : list string) :
  formatted_authors authors = Ok names ->
  ((1 < List.length names)%nat ->
   get_last_names authors =
   Ok (Py.join ", " (removelast names) ++ " & " ++ last names ""))
  /\ (forall n, names = [n] -> get_last_names authors = Ok n).
Proof.
  intros Hfa. unfold get_last_names. rewrite Hfa. cbn [bind]. split.
  - apply join_names_many.
  - intros n ->. apply join_names_one.
Qed.

Lemma join_of_formatted_names_witness :
  get_last_names "A. One and B. Two" = Ok "One & Two"
  /\ get_last_names "A. One, B. Two, C. Three" = Ok "One, Two & Three"
  /\ get_last_names "A. B. One" = Ok "One".
Proof.
  split; [| split].
  - exact (proj1 (join_of_formatted_names "A. One and B. Two" ["One"; "Two"]
                    eq_refl) (Nat.lt_succ_diag_r 1)).
  - exact (proj1 (join_of_formatted_names "A. One, B. Two, C. Three"
                    ["One"; "Two"; "Three"] eq_refl)
             (Nat.lt_lt_succ_r 1 2 (Nat.lt_succ_diag_r 1))).
  - exact (proj2 (join_of_formatted_names "A. B. One" ["One"] eq_refl)
             "One" eq_refl).
Defined.

(** *** Strings and pieces of strings *)

Lemma append_nil_r (s : string) : s ++ "" = s.
Proof. induction s as [| c s IH]; cbn; [reflexivity | now rewrite IH]. Qed.

Lemma append_assoc (s t u : string) : (s ++ t) ++ u = s ++ (t ++ u).
Proof. induction s as [| c s IH]; cbn; [reflexivity | now rewrite IH]. Qed.

Lemma substring_of_refl (a : string) : substring_of a a.
Proof. exists "", "". cbn. now rewrite append_nil_r. Qed.

Lemma substring_of_app_r (a s t : string) :
  substring_of a s -> substring_of a (s ++ t).
Proof.
  intros [pre [post ->]]. exists pre, (post ++ t).
  now rewrite !append_assoc.
Qed.

Lemma substring_of_app_l (a s t : string) :
  substring_of a s -> substring_of a (t ++ s).
Proof.
  intros [pre [post ->]]. exists (t ++ pre), post.
  now rewrite !append_assoc.
Qed.

Lemma substring_of_join (sep a : string) (l : list string) :
  In a l -> substring_of a (Py.join sep l).
Proof.
  unfold Py.join.
  induction l as [| x l IH]; [intros [] |].
  intros [-> | Hin].
  - destruct l as [| y l]; cbn [String.concat].
    + apply substring_of_refl.
    + apply substring_of_app_r, substring_of_refl.
  - destruct l as [| y l]; [destruct Hin |].
    cbn [String.concat]. fold (String.concat sep (y :: l)).
    apply substring_of_app_l, substring_of_app_l. now apply IH.
Qed.

Lemma substring_of_join_names (a r : string) (names : list string) :
  In a names -> join_names names = Ok r -> substring_of a r.
Proof.
  intros Hin Hjoin.
  destruct names as [| n [| m rest]].
  - destruct Hin.
  - destruct Hin as [-> | []]. rewrite join_names_one in Hjoin.
    injection Hjoin as <-. apply substring_of_refl.
  - assert (Hlen : (1 < List.length (n :: m :: rest))%nat) by (cbn; lia).
    assert (Hne : n :: m :: rest <> []) by discriminate.
    remember (n :: m :: rest) as names eqn:Hnames. clear Hnames.
    rewrite (join_names_many names Hlen) in Hjoin.
    injection Hjoin as <-.
    rewrite (app_removelast_last "" Hne) in Hin.
    apply in_app_or in Hin. destruct Hin as [Hin | [<- | []]].
    + apply substring_of_app_r. now apply substring_of_join.
    + exists (Py.join ", " (removelast names) ++ " & "), "".
      now rewrite append_nil_r, append_assoc.
Qed.

Lemma split_ws_go_no_space (s cur : string) :
  no_space s -> cur ++ s <> "" -> Py.split_ws_go cur s = [cur ++ s].
Proof.
  unfold no_space. revert cur.
  induction s as [| c s IH]; intros cur Hns Hne; cbn [Py.split_ws_go].
  - rewrite append_nil_r in *. unfold Py.nonempty.
    destruct (String.eqb_spec cur ""); [contradiction | reflexivity].
  - cbn [list_ascii_of_string] in Hns. inversion Hns as [| ? ? Hc Hs]; subst.
    rewrite Hc.
    replace (cur ++ String c s) with ((cur ++ String c "") ++ s)
      by (now rewrite append_assoc).
    apply IH; [exact Hs |].
    rewrite append_assoc. cbn. destruct cur; discriminate.
Qed.

(** A non-empty string without white space is its own single token. *)
Lemma split_ws_single_token (s : string) :
  no_space s -> s <> "" -> Py.split_ws s = [s].
Proof. intros Hns Hne. now apply (split_ws_go_no_space s ""). Qed.

(** *** One author *)

Lemma format_author_et_al (fa : list string) (author : string) :
  Py.contains "et al." author = true ->
  format_author fa author = Ok (fa ++ [author])%list.
Proof. intros H. unfold format_author. now rewrite H. Qed.

(** What the loop body does with an author that has tokens: the final token
    is taken, and when it is ["Jr."] the token before it, which must exist. *)
Lemma format_author_tokens (fa front : list string) (author t : string) :
  Py.contains "et al." author = false ->
  Py.split_ws author = (front ++ [t])%list ->
  (t <> "Jr." -> format_author fa author = Ok (fa ++ [t])%list)
  /\ (t = "Jr." ->
      forall front' u, front = (front' ++ [u])%list ->
      format_author fa author = Ok (fa ++ [u])%list)
  /\ (t = "Jr." -> front = [] -> format_author fa author = Raise IndexError).
Proof.
  intros Hc Hparts. unfold format_author. rewrite Hc, Hparts.
  assert (Hlast : Py.index (front ++ [t])%list (-1) = Ok t).
  { rewrite (index_last _ "") by (destruct front; discriminate).
    now rewrite last_last. }
  assert (Hcons : exists p ps, (front ++ [t])%list = p :: ps).
  { destruct front as [| p ps]; [now exists t, [] | now exists p, (ps ++ [t])%list]. }
  destruct Hcons as [p [ps Hcons]]. rewrite Hcons. rewrite <- Hcons.
  unfold last_name_of. rewrite Hlast. cbn [bind].
  repeat split.
  - intros Hne. destruct (String.eqb_spec t "Jr."); [contradiction | reflexivity].
  - intros -> front' u ->. cbn [String.eqb Ascii.eqb Bool.eqb].
    rewrite <- app_assoc. cbn [app]. now rewrite index_second_to_last.
  - intros -> ->. reflexivity.
Qed.

(** A single token other than ["Jr."] is taken as it is. *)
Lemma format_author_single_token (fa : list string) (author : string) :
  no_space author -> author <> "" ->
  Py.contains "et al." author = false ->
  author <> "Jr." ->
  format_author fa author = Ok (fa ++ [author])%list.
Proof.
  intros Hns Hne Hc Hjr.
  exact (proj1 (format_author_tokens fa [] author author Hc
                  (split_ws_single_token author Hns Hne)) Hjr).
Qed.

Lemma format_loop_keeps_et_al (l fa names : list string) (author : string) :
  In author l ->
  Py.contains "et al." author = true ->
  format_loop fa l = Ok names ->
  In author names.
Proof.
  revert fa. induction l as [| a l IH]; intros fa Hin Hc; [destruct Hin |].
  cbn [format_loop].
  destruct (format_author fa a) as [fa' |] eqn:Hfa; cbn [bind]; [| discriminate].
  intros Hloop. destruct Hin as [-> | Hin].
  - rewrite format_author_et_al in Hfa by exact Hc. injection Hfa as <-.
    destruct (format_loop_extends _ _ _ Hloop) as [ext ->].
    apply in_or_app. left. apply in_or_app. right. now left.
  - now apply (IH fa').
Qed.

(** C8: an author substring that contains ["et al."] is appended to
    [formatted_authors] as it is, with no token taken out of it, and whenever
    [get_last_names] returns, the returned string contains that substring
    verbatim. *)
Theorem et_al_kept_verbatim (authors author : string) :
  In author (author_list authors) ->
  Py.contains "et al." author = true ->
  (forall fa, format_author fa author = Ok (fa ++ [author])%list)
  /\ (forall names, formatted_authors authors = Ok names -> In author names)
  /\ (forall r, get_last_names authors = Ok r -> substring_of author r).
Proof.
  intros Hin Hc. split; [| split].
  - intros fa. now apply format_author_et_al.
  - intros names Hfa. unfold formatted_authors in Hfa.
    now apply (format_loop_keeps_et_al _ _ _ _ Hin Hc Hfa).
  - intros r. unfold get_last_names.
    destruct (formatted_authors authors) as [names |] eqn:Hfa; cbn [bind];
      [| discriminate].
    intros Hjoin. apply (substring_of_join_names _ _ names); [| exact Hjoin].
    unfold formatted_authors in Hfa.
    now apply (format_loop_keeps_et_al _ _ _ _ Hin Hc Hfa).
Qed.

Lemma et_al_kept_verbatim_witness :
  In "J. Doe et al." (author_list "A. B. Roe,  J. Doe et al. and C. Poe")
  /\ Py.contains "et al." "J. Doe et al." = true
  /\ get_last_names "A. B. Roe,  J. Doe et al. and C. Poe"
     = Ok "Roe, J. Doe et al. & Poe"
  /\ substring_of "J. Doe et al." "Roe, J. Doe et al. & Poe".
Proof.
  assert (Hin : In "J. Doe et al."
                  (author_list "A. B. Roe,  J. Doe et al. and C. Poe")).
  { vm_compute. right. left. reflexivity. }
  assert (Hc : Py.contains "et al." "J. Doe et al." = true) by reflexivity.
  split; [exact Hin |]. split; [exact Hc |]. split; [reflexivity |].
  exact (proj2 (proj2 (et_al_kept_verbatim _ _ Hin Hc)) _ eq_refl).
Defined.

(** C4, at the single token ["Jr."]: the string is non-empty, has no white
    space and no ["et al."], so it is one token; the loop body takes
    [parts[-2]] of the one-element [parts] and raises, and the token is not
    returned as it is. *)
Theorem single_token_Jr_not_returned :
  no_space "Jr." /\ Py.strip "Jr." = "Jr."
  /\ Py.contains "et al." "Jr." = false
  /\ Py.split_ws "Jr." = ["Jr."]
  /\ format_author [] "Jr." = Raise IndexError
  /\ get_last_names "Jr." <> Ok "Jr.".
Proof.
  repeat split; try reflexivity; try discriminate.
  unfold no_space. cbn. repeat constructor.
Qed.

Lemma prefix_app (a post : string) : prefix a (a ++ post) = true.
Proof.
  induction a as [| c a IH]; cbn; [now destruct post |].
  destruct (ascii_dec c c) as [_ | Hne]; [exact IH | now elim Hne].
Qed.

Lemma contains_unfold (sub s : string) :
  Py.contains sub s =
  prefix sub s
  || match s with
     | EmptyString => false
     | String _ s' => Py.contains sub s'
     end.
Proof. destruct s; reflexivity. Qed.

(** [Py.contains] finds every occurrence. *)
Lemma substring_of_contains (a s : string) :
  substring_of a s -> Py.contains a s = true.
Proof.
  intros [pre [post ->]].
  induction pre as [| c pre IH].
  - cbn [append]. rewrite contains_unfold, prefix_app. reflexivity.
  - cbn [append]. rewrite contains_unfold, IH. apply orb_true_r.
Qed.

(** The line of a row is made of the three cells, the third being
    [isbn_cell]. *)

(** ** More about the built-ins *)

Lemma nonempty_true (s : string) : Py.nonempty s = true <-> s <> "".
Proof. unfold Py.nonempty. rewrite negb_true_iff. apply String.eqb_neq. Qed.

Lemma chars_app (s t : string) :
  list_ascii_of_string (s ++ t)
  = (list_ascii_of_string s ++ list_ascii_of_string t)%list.
Proof. induction s as [| c s IH]; cbn; [reflexivity | now rewrite IH]. Qed.

Lemma append_eq_empty (s t : string) : s ++ t = "" -> s = "" /\ t = "".
Proof. destruct s; cbn; [now split | discriminate]. Qed.

Lemma prefix_nil (s : string) : prefix "" s = true.
Proof. now destruct s. Qed.

Lemma prefix_split (a s : string) :
  prefix a s = true -> exists post, s = a ++ post.
Proof.
  revert s. induction a as [| c a IH]; intros s H.
  - now exists s.
  - destruct s as [| d s]; [discriminate |]. cbn [prefix] in H.
    destruct (ascii_dec c d) as [-> | _]; [| discriminate].
    destruct (IH s H) as [post ->]. now exists post.
Qed.

(** [Py.contains] reports only real occurrences. *)
Lemma contains_substring_of (a s : string) :
  Py.contains a s = true -> substring_of a s.
Proof.
  induction s as [| c s IH]; rewrite contains_unfold; intros H;
    apply orb_true_iff in H; destruct H as [H | H]; try discriminate.
  - destruct (prefix_split _ _ H) as [post Hpost]. exists "", post. exact Hpost.
  - destruct (prefix_split _ _ H) as [post Hpost]. exists "", post. exact Hpost.
  - destruct (IH H) as [pre [post ->]]. now exists (String c pre), post.
Qed.

Lemma substring_of_trans (a b s : string) :
  substring_of a b -> substring_of b s -> substring_of a s.
Proof.
  intros [p1 [q1 ->]] [p2 [q2 ->]]. exists (p2 ++ p1), (q1 ++ q2).
  now rewrite !append_assoc.
Qed.

Lemma lstrip_suffix (s : string) : exists pre, s = pre ++ Py.lstrip s.
Proof.
  induction s as [| c s [pre IH]]; [now exists "" |].
  cbn [Py.lstrip]. destruct (Py.isspace c).
  - exists (String c pre). cbn. now rewrite <- IH.
  - now exists "".
Qed.

Lemma rstrip_prefix (s : string) : exists post, s = Py.rstrip s ++ post.
Proof.
  induction s as [| c s [post IH]]; [now exists "" |].
  cbn [Py.rstrip]. destruct (Py.isspace c && (Py.rstrip s =? "")).
  - now exists (String c s).
  - exists post. cbn. now rewrite <- IH.
Qed.

Lemma strip_substring_of (s : string) : substring_of (Py.strip s) s.
Proof.
  unfold Py.strip.
  destruct (lstrip_suffix s) as [pre Hpre].
  destruct (rstrip_prefix (Py.lstrip s)) as [post Hpost].
  exists pre, post. now rewrite <- Hpost.
Qed.

Lemma contains_strip (sub s : string) :
  Py.contains sub s = false -> Py.contains sub (Py.strip s) = false.
Proof.
  intros H. destruct (Py.contains sub (Py.strip s)) eqn:Hc; [| reflexivity].
  rewrite <- H. symmetry. apply substring_of_contains.
  apply (substring_of_trans _ (Py.strip s));
    [now apply contains_substring_of | apply strip_substring_of].
Qed.

Lemma lstrip_head (s : string) :
  Py.lstrip s = ""
  \/ exists c t, Py.lstrip s = String c t /\ Py.isspace c = false.
Proof.
  induction s as [| c s IH]; [now left |].
  cbn [Py.lstrip]. destruct (Py.isspace c) eqn:Hc; [exact IH |].
  right. now exists c, s.
Qed.

Lemma rstrip_cons (c : ascii) (s : string) :
  Py.isspace c = false -> Py.rstrip (String c s) = String c (Py.rstrip s).
Proof. intros Hc. cbn [Py.rstrip]. now rewrite Hc. Qed.

(** A stripped string is empty or begins with a character that is not
    white space. *)
Lemma strip_head (s : string) :
  Py.strip s = ""
  \/ exists c t, Py.strip s = String c t /\ Py.isspace c = false.
Proof.
  unfold Py.strip.
  destruct (lstrip_head s) as [-> | [c [t [-> Hc]]]]; [now left |].
  right. exists c, (Py.rstrip t). split; [now apply rstrip_cons | exact Hc].
Qed.

Lemma rstrip_idem (s : string) : Py.rstrip (Py.rstrip s) = Py.rstrip s.
Proof.
  induction s as [| c s IH]; [reflexivity |].
  cbn [Py.rstrip].
  destruct (Py.isspace c && (Py.rstrip s =? "")) eqn:Hc; [reflexivity |].
  cbn [Py.rstrip]. now rewrite IH, Hc.
Qed.

Lemma strip_idem (s : string) : Py.strip (Py.strip s) = Py.strip s.
Proof.
  destruct (strip_head s) as [H | [c [t [H Hc]]]].
  - now rewrite H.
  - unfold Py.strip at 1. rewrite H. cbn [Py.lstrip]. rewrite Hc.
    rewrite <- H. unfold Py.strip. apply rstrip_idem.
Qed.

Lemma rstrip_empty_no_token (s : string) :
  Py.rstrip s = "" -> Py.split_ws_go "" s = [].
Proof.
  induction s as [| c s IH]; [reflexivity |].
  cbn [Py.rstrip Py.split_ws_go].
  destruct (Py.isspace c); cbn [andb]; [| discriminate].
  destruct (String.eqb_spec (Py.rstrip s) ""); [| discriminate].
  intros _. cbn. now apply IH.
Qed.

Lemma split_ws_go_rstrip (s cur : string) :
  Py.split_ws_go cur (Py.rstrip s) = Py.split_ws_go cur s.
Proof.
  revert cur. induction s as [| c s IH]; intros cur; [reflexivity |].
  cbn [Py.rstrip].
  destruct (Py.isspace c) eqn:Hc; cbn [andb].
  - destruct (String.eqb_spec (Py.rstrip s) "") as [He | _].
    + cbn [Py.split_ws_go]. rewrite Hc, (rstrip_empty_no_token s He).
      now destruct (Py.nonempty cur).
    + cbn [Py.split_ws_go]. rewrite Hc, !IH. reflexivity.
  - cbn [Py.split_ws_go]. rewrite Hc. apply IH.
Qed.

Lemma split_ws_lstrip (s : string) : Py.split_ws (Py.lstrip s) = Py.split_ws s.
Proof.
  unfold Py.split_ws. induction s as [| c s IH]; [reflexivity |].
  cbn [Py.lstrip]. destruct (Py.isspace c) eqn:Hc; [| reflexivity].
  rewrite IH. cbn [Py.split_ws_go]. now rewrite Hc.
Qed.

(** Stripping does not change the tokens. *)
Lemma split_ws_strip (s : string) : Py.split_ws (Py.strip s) = Py.split_ws s.
Proof.
  unfold Py.strip. rewrite <- (split_ws_lstrip s).
  unfold Py.split_ws. apply split_ws_go_rstrip.
Qed.

Lemma split_ws_go_nonblank (s cur : string) :
  cur <> "" -> Py.split_ws_go cur s <> [].
Proof.
  revert cur. induction s as [| c s IH]; intros cur Hne; cbn [Py.split_ws_go].
  - rewrite (proj2 (nonempty_true cur) Hne). discriminate.
  - destruct (Py.isspace c).
    + rewrite (proj2 (nonempty_true cur) Hne). discriminate.
    + apply IH. destruct cur; discriminate.
Qed.

Lemma split_ws_head (c : ascii) (t : string) :
  Py.isspace c = false -> Py.split_ws (String c t) <> [].
Proof.
  intros Hc. unfold Py.split_ws. cbn [Py.split_ws_go]. rewrite Hc.
  apply split_ws_go_nonblank. discriminate.
Qed.

Lemma no_space_snoc (cur : string) (c : ascii) :
  no_space cur -> Py.isspace c = false -> no_space (cur ++ String c "").
Proof.
  unfold no_space. rewrite chars_app. intros Hcur Hc.
  apply Forall_app. split; [exact Hcur |]. now repeat constructor.
Qed.

(** Tokens are non-empty and free of white space. *)
Lemma split_ws_go_tokens (s cur : string) :
  no_space cur ->
  Forall (fun t => t <> "" /\ no_space t) (Py.split_ws_go cur s).
Proof.
  revert cur. induction s as [| c s IH]; intros cur Hcur; cbn [Py.split_ws_go].
  - destruct (Py.nonempty cur) eqn:Hne; [| constructor].
    constructor; [| constructor]. split; [now apply nonempty_true | exact Hcur].
  - destruct (Py.isspace c) eqn:Hc.
    + destruct (Py.nonempty cur) eqn:Hne.
      * constructor; [split; [now apply nonempty_true | exact Hcur] |].
        apply IH. constructor.
      * apply IH. constructor.
    + apply IH. now apply no_space_snoc.
Qed.

Lemma split_ws_tokens (s : string) :
  Forall (fun t => t <> "" /\ no_space t) (Py.split_ws s).
Proof. apply split_ws_go_tokens. constructor. Qed.

(** Without an occurrence of the separator there is one piece. *)
Lemma split_go_no_sep (sep s cur : string) :
  Py.contains sep s = false -> Py.split_go sep 0 cur s = [cur ++ s].
Proof.
  revert cur. induction s as [| c s IH]; intros cur;
    rewrite contains_unfold; intros H; apply orb_false_iff in H;
    destruct H as [Hp Hc]; cbn [Py.split_go].
  - now rewrite append_nil_r.
  - rewrite Hp, (IH _ Hc). now rewrite append_assoc.
Qed.

Lemma split_no_sep (sep s : string) :
  Py.contains sep s = false -> Py.split sep s = [s].
Proof. intros H. unfold Py.split. now rewrite (split_go_no_sep sep s "" H). Qed.

(** ** More about the loop of [get_last_names] *)



Lemma last_name_of_In (parts : list string) (n : string) :
  last_name_of parts = Ok n -> In n parts.
Proof.
  assert (Hidx : forall i m, Py.index parts i = Ok m -> In m parts).
  { intros i m. unfold Py.index.
    destruct ((if (i <? 0)%Z then (i + Py.len parts)%Z else i) <? 0)%Z;
      [discriminate |].
    destruct (nth_error parts _) eqn:Hn; [| discriminate].
    intros [= <-]. now apply nth_error_In in Hn. }
  unfold last_name_of.
  destruct (Py.index parts (-1)) as [t |] eqn:Ht; cbn [bind]; [| discriminate].
  destruct (t =? "Jr.").
  - apply Hidx.
  - intros [= <-]. now apply (Hidx (-1)%Z).
Qed.





Lemma format_author_length (fa fa' : list string) (author : string) :
  format_author fa author = Ok fa' ->
  List.length fa' = (List.length fa + if appends author then 1 else 0)%nat.
Proof.
  unfold format_author, appends.
  destruct (Py.contains "et al." author); cbn [orb].
  - intros [= <-]. now rewrite length_app.
  - destruct (Py.split_ws author) as [| p ps].
    + intros [= <-]. lia.
    + destruct (last_name_of (p :: ps)); cbn [bind]; [| discriminate].
      intros [= <-]. now rewrite length_app.
Qed.

Lemma format_loop_length (l fa names : list string) :
  format_loop fa l = Ok names ->
  List.length names = (List.length fa + List.length (filter appends l))%nat.
Proof.
  revert fa. induction l as [| a l IH]; intros fa; cbn [format_loop filter].
  - intros [= <-]. cbn. lia.
  - destruct (format_author fa a) as [fa' |] eqn:Hfa; cbn [bind]; [| discriminate].
    intros H. rewrite (IH _ H), (format_author_length _ _ _ Hfa).
    destruct (appends a); cbn [List.length]; lia.
Qed.

(** On a stripped entry a name is appended exactly when the entry is not
    empty. *)
Lemma appends_strip (s : string) :
  appends (Py.strip s) = Py.nonempty (Py.strip s).
Proof.
  destruct (strip_head s) as [-> | [c [t [-> Hc]]]]; [reflexivity |].
  unfold appends.
  pose proof (split_ws_head c t Hc) as Hne.
  destruct (Py.split_ws (String c t)); [contradiction |].
  now rewrite orb_true_r.
Qed.

Lemma author_list_stripped (authors a : string) :
  In a (author_list authors) -> exists s, a = Py.strip s.
Proof.
  unfold author_list. intros H. apply in_map_iff in H.
  destruct H as [s [<- _]]. now exists s.
Qed.

Lemma appends_author_list (authors : string) :
  filter appends (author_list authors)
  = filter Py.nonempty (author_list authors).
Proof.
  apply filter_ext_in. intros a Ha.
  destruct (author_list_stripped _ _ Ha) as [s ->]. apply appends_strip.
Qed.

(** What the names appended by the loop are. *)
Lemma format_loop_names (P : string -> Prop) (l fa names : list string) :
  (forall a n, In a l -> Py.contains "et al." a = true -> n = a -> P n) ->
  (forall a n, In a l -> Py.contains "et al." a = false ->
               last_name_of (Py.split_ws a) = Ok n -> P n) ->
  Forall P fa ->
  format_loop fa l = Ok names ->
  Forall P names.
Proof.
  revert fa. induction l as [| a l IH]; intros fa Het Htok Hfa;
    cbn [format_loop].
  - now intros [= <-].
  - destruct (format_author fa a) as [fa' |] eqn:Hstep; cbn [bind];
      [| discriminate].
    apply IH.
    + intros b n Hb. apply Het. now right.
    + intros b n Hb. apply Htok. now right.
    + unfold format_author in Hstep.
      destruct (Py.contains "et al." a) eqn:Hc.
      * injection Hstep as <-. apply Forall_app. split; [exact Hfa |].
        constructor; [| constructor]. apply (Het a); [now left | exact Hc |].
        reflexivity.
      * destruct (Py.split_ws a) as [| p ps] eqn:Hparts.
        { now injection Hstep as <-. }
        destruct (last_name_of (p :: ps)) as [n |] eqn:Hn; cbn [bind] in Hstep;
          [| discriminate].
        injection Hstep as <-. apply Forall_app. split; [exact Hfa |].
        constructor; [| constructor]. apply (Htok a); [now left | exact Hc |].
        now rewrite Hparts.
Qed.

Lemma formatted_names_nonempty (authors : string) (names : list string) :
  formatted_authors authors = Ok names -> Forall (fun n => n <> "") names.
Proof.
  apply format_loop_names; [| | constructor].
  - intros a n _ Hc -> ->. discriminate.
  - intros a n _ _ Hn. apply last_name_of_In in Hn.
    pose proof (split_ws_tokens a) as Htok. rewrite Forall_forall in Htok.
    now apply Htok.
Qed.

Lemma no_comma_snoc (cur : string) (c : ascii) :
  no_comma cur -> c <> ","%char -> no_comma (cur ++ String c "").
Proof.
  unfold no_comma. rewrite chars_app. intros Hcur Hc.
  apply Forall_app. split; [exact Hcur |]. now repeat constructor.
Qed.

(** The pieces cut at commas hold no comma. *)
Lemma split_go_comma (s cur : string) :
  no_comma cur -> Forall no_comma (Py.split_go "," 0 cur s).
Proof.
  revert cur. induction s as [| c s IH]; intros cur Hcur; cbn [Py.split_go].
  - now repeat constructor.
  - cbn [prefix]. destruct (ascii_dec ","%char c) as [_ | Hc].
    + rewrite prefix_nil. constructor; [exact Hcur |].
      apply IH. constructor.
    + apply IH. apply no_comma_snoc; [exact Hcur | congruence].
Qed.

Lemma no_comma_lstrip (s : string) : no_comma s -> no_comma (Py.lstrip s).
Proof.
  unfold no_comma. induction s as [| c s IH]; [trivial |].
  cbn [Py.lstrip list_ascii_of_string]. intros H.
  destruct (Py.isspace c); [| exact H]. inversion H; subst. now apply IH.
Qed.

Lemma no_comma_rstrip (s : string) : no_comma s -> no_comma (Py.rstrip s).
Proof.
  unfold no_comma. induction s as [| c s IH]; [trivial |].
  cbn [Py.rstrip list_ascii_of_string]. intros H. inversion H; subst.
  destruct (Py.isspace c && (Py.rstrip s =? "")); [constructor |].
  cbn [list_ascii_of_string]. constructor; [assumption | now apply IH].
Qed.



(** ** Further properties of [get_last_names] *)



(** X2: every name the loop leaves in [formatted_authors] is non-empty and
    comes from an entry of [author_list]: it is the whole entry when the
    entry contains ["et al."], and otherwise one of the entry's tokens, free
    of white space. *)
Theorem formatted_names_shape (authors : string) (names : list string) :
  formatted_authors authors = Ok names ->
  Forall
    (fun n =>
       n <> ""
       /\ exists a,
            In a (author_list authors)
            /\ ((Py.contains "et al." a = true /\ n = a)
                \/ (Py.contains "et al." a = false
                    /\ no_space n /\ In n (Py.split_ws a))))
    names.
Proof.
  apply format_loop_names; [| | constructor].
  - intros a n Ha Hc ->. split; [intros ->; discriminate |].
    exists a. split; [exact Ha |]. left. now split.
  - intros a n Ha Hc Hn. apply last_name_of_In in Hn.
    pose proof (split_ws_tokens a) as Htok. rewrite Forall_forall in Htok.
    destruct (Htok n Hn) as [Hne Hns].
    split; [exact Hne |]. exists a. split; [exact Ha |]. right. now repeat split.
Qed.

Lemma formatted_names_shape_witness :
  formatted_authors "J. Doe et al., A. B. Roe Jr."
  = Ok ["J. Doe et al."; "Roe"]
  /\ Forall
       (fun n =>
          n <> ""
          /\ exists a,
               In a (author_list "J. Doe et al., A. B. Roe Jr.")
               /\ ((Py.contains "et al." a = true /\ n = a)
                   \/ (Py.contains "et al." a = false
                       /\ no_space n /\ In n (Py.split_ws a))))
       ["J. Doe et al."; "Roe"].
Proof.
  split; [reflexivity |].
  exact (formatted_names_shape "J. Doe et al., A. B. Roe Jr."
           ["J. Doe et al."; "Roe"] eq_refl).
Defined.

(** X3: [get_last_names] never returns the empty string. *)
Theorem get_last_names_never_empty (authors r : string) :
  get_last_names authors = Ok r -> r <> "".
Proof.
  unfold get_last_names.
  destruct (formatted_authors authors) as [names |] eqn:Hfa; cbn [bind];
    [| discriminate].
  apply formatted_names_nonempty in Hfa.
  destruct names as [| n [| m rest]].
  - discriminate.
  - rewrite join_names_one. intros [= <-]. now inversion Hfa.
  - rewrite join_names_many by (cbn; lia). intros [= <-] H.
    apply append_eq_empty in H. destruct H as [_ H]. discriminate.
Qed.

Lemma get_last_names_never_empty_witness :
  get_last_names "A. One and B. Two" = Ok "One & Two" /\ "One & Two" <> "".
Proof.
  split; [reflexivity |].
  exact (get_last_names_never_empty "A. One and B. Two" "One & Two" eq_refl).
Defined.

(** X4: when the loop ends normally it has appended one name for each
    non-empty entry of [author_list] and none for the empty ones. *)
Theorem formatted_names_count (authors : string) (names : list string) :
  formatted_authors authors = Ok names ->
  List.length names
  = List.length (filter Py.nonempty (author_list authors)).
Proof.
  unfold formatted_authors. intros H.
  apply format_loop_length in H. now rewrite appends_author_list in H.
Qed.

Lemma formatted_names_count_witness :
  author_list "A. One, , B. Two" = ["A. One"; ""; "B. Two"]
  /\ formatted_authors "A. One, , B. Two" = Ok ["One"; "Two"]
  /\ List.length ["One"; "Two"]
     = List.length (filter Py.nonempty (author_list "A. One, , B. Two")).
Proof.
  split; [reflexivity |]. split; [reflexivity |].
  exact (formatted_names_count "A. One, , B. Two" ["One"; "Two"] eq_refl).
Defined.

Lemma author_list_single (authors : string) :
  Py.contains " and " authors = false ->
  Py.contains "," authors = false ->
  authors <> "" ->
  author_list authors = [Py.strip authors].
Proof.
  intros Hand Hcomma Hne. unfold author_list.
  rewrite (split_no_sep _ _ Hand). cbn [flat_map].
  rewrite (split_no_sep _ _ Hcomma). cbn [app filter].
  now rewrite (proj2 (nonempty_true authors) Hne).
Qed.

Lemma get_last_names_single (authors : string) :
  author_list authors = [Py.strip authors] ->
  get_last_names authors =
  (fa <- format_author [] (Py.strip authors) ;; join_names fa).
Proof.
  intros H. unfold get_last_names, formatted_authors. rewrite H.
  cbn [format_loop]. now destruct (format_author [] (Py.strip authors)).
Qed.

(** X5: for an author field with no [" and "], no comma and no ["et al."],
    [get_last_names] gives the last white-space-delimited token of the field,
    whatever white space surrounds it; when that token is ["Jr."] it gives
    the token before it, and raises [IndexError] when there is none. *)
Theorem single_author_last_token
  (authors : string) (front : list string) (t : string) :
  Py.contains " and " authors = false ->
  Py.contains "," authors = false ->
  Py.contains "et al." authors = false ->
  Py.split_ws authors = (front ++ [t])%list ->
  (t <> "Jr." -> get_last_names authors = Ok t)
  /\ (t = "Jr." ->
      forall front' u, front = (front' ++ [u])%list ->
      get_last_names authors = Ok u)
  /\ (t = "Jr." -> front = [] -> get_last_names authors = Raise IndexError).
Proof.
  intros Hand Hcomma Het Hparts.
  assert (Hne : authors <> "").
  { intros ->. destruct front; discriminate. }
  rewrite (get_last_names_single _ (author_list_single _ Hand Hcomma Hne)).
  assert (Hparts' : Py.split_ws (Py.strip authors) = (front ++ [t])%list)
    by now rewrite split_ws_strip.
  destruct (format_author_tokens [] front (Py.strip authors) t
              (contains_strip _ _ Het) Hparts') as [H1 [H2 H3]].
  split; [| split].
  - intros Ht. now rewrite (H1 Ht).
  - intros Ht front' u Hfront. now rewrite (H2 Ht front' u Hfront).
  - intros Ht Hfront. now rewrite (H3 Ht Hfront).
Qed.

Lemma single_author_last_token_witness :
  get_last_names "  Richard P. Feynman " = Ok "Feynman"
  /\ get_last_names "Martin Luther King Jr." = Ok "King".
Proof.
  split.
  - exact (proj1 (single_author_last_token "  Richard P. Feynman "
                    ["Richard"; "P."] "Feynman"
                    eq_refl eq_refl eq_refl eq_refl)
             (fun H : "Feynman" = "Jr." =>
                eq_ind "Feynman"%string
                  (fun s => match s with
                            | String "F" _ => True
                            | _ => False
                            end) I _ H)).
  - exact (proj1 (proj2 (single_author_last_token "Martin Luther King Jr."
                           ["Martin"; "Luther"; "King"] "Jr."
                           eq_refl eq_refl eq_refl eq_refl))
             eq_refl ["Martin"; "Luther"] "King" eq_refl).
Defined.

(** X6: every entry of [author_list] is already stripped, with no white
    space at either end, and holds no comma. *)
Theorem author_list_entries (authors a : string) :
  In a (author_list authors) -> Py.strip a = a /\ no_comma a.
Proof.
  unfold author_list. intros H. apply in_map_iff in H.
  destruct H as [s [<- Hs]]. split; [apply strip_idem |].
  apply filter_In in Hs. destruct Hs as [Hs _].
  apply in_flat_map in Hs. destruct Hs as [part [_ Hs]].
  assert (Hall : Forall no_comma (Py.split "," part)).
  { apply split_go_comma. constructor. }
  rewrite Forall_forall in Hall.
  unfold Py.strip. apply no_comma_rstrip, no_comma_lstrip. now apply Hall.
Qed.

Lemma author_list_entries_witness :
  In "B. Two" (author_list " A. One ,  B. Two  and C. Three")
  /\ Py.strip "B. Two" = "B. Two" /\ no_comma "B. Two".
Proof.
  assert (Hin : In "B. Two" (author_list " A. One ,  B. Two  and C. Three")).
  { vm_compute. right. left. reflexivity. }
  split; [exact Hin |].
  exact (author_list_entries " A. One ,  B. Two  and C. Three" "B. Two" Hin).
Defined.

(** ** Comma-separated author fields *)

Lemma split_go_comma_app (a s cur : string) :
  no_comma a ->
  Py.split_go "," 0 cur (a ++ s) = Py.split_go "," 0 (cur ++ a) s.
Proof.
  unfold no_comma. revert cur. induction a as [| c a IH]; intros cur Ha.
  - cbn [append]. now rewrite append_nil_r.
  - cbn [list_ascii_of_string] in Ha. inversion Ha as [| ? ? Hc Ha']; subst.
    cbn [append Py.split_go prefix].
    destruct (ascii_dec ","%char c) as [Heq | _]; [now elim Hc |].
    rewrite (IH _ Ha'). now rewrite append_assoc.
Qed.

Lemma split_go_comma_cut (s cur : string) :
  Py.split_go "," 0 cur (String "," s) = cur :: Py.split_go "," 0 "" s.
Proof. cbn [Py.split_go prefix]. cbn. now rewrite prefix_nil. Qed.

(** Splitting at commas undoes joining comma-free pieces with commas. *)
Lemma split_join_comma (pieces : list string) :
  Forall no_comma pieces -> pieces <> [] ->
  Py.split "," (Py.join "," pieces) = pieces.
Proof.
  unfold Py.split, Py.join.
  induction 1 as [| p ps Hp Hps IH]; intros Hne; [contradiction |].
  destruct ps as [| q ps].
  - cbn [String.concat]. rewrite <- (append_nil_r p) at 1.
    rewrite (split_go_comma_app p "" "" Hp). reflexivity.
  - cbn [String.concat]. fold (String.concat "," (q :: ps)).
    rewrite (split_go_comma_app p _ "" Hp). cbn [append].
    rewrite split_go_comma_cut. f_equal. apply IH. discriminate.
Qed.

Lemma simple_name_tokens (s : string) :
  simple_name s ->
  Py.split_ws s = (removelast (Py.split_ws s) ++ [last_token s])%list.
Proof.
  intros [_ [Hne _]]. unfold last_token. now apply app_removelast_last.
Qed.

Lemma simple_name_nonempty (s : string) : simple_name s -> Py.nonempty s = true.
Proof.
  intros [_ [Hne _]]. apply nonempty_true. intros ->. now apply Hne.
Qed.

Lemma format_author_simple (fa : list string) (s : string) :
  simple_name s ->
  format_author fa (Py.strip s) = Ok (fa ++ [last_token s])%list.
Proof.
  intros Hs. pose proof (simple_name_tokens s Hs) as Htok.
  destruct Hs as [Het [_ Hjr]].
  rewrite <- split_ws_strip in Htok.
  exact (proj1 (format_author_tokens fa _ (Py.strip s) (last_token s)
                  (contains_strip _ _ Het) Htok) Hjr).
Qed.

Lemma format_loop_simple (l fa : list string) :
  Forall simple_name l ->
  format_loop fa (map Py.strip l) = Ok (fa ++ map last_token l)%list.
Proof.
  intros H. revert fa. induction H as [| s l Hs _ IH]; intros fa;
    cbn [map format_loop].
  - now rewrite app_nil_r.
  - rewrite (format_author_simple fa s Hs). cbn [bind].
    rewrite IH. now rewrite <- app_assoc.
Qed.

Lemma author_list_comma_join (pieces : list string) :
  Forall no_comma pieces ->
  pieces <> [] ->
  Py.contains " and " (Py.join "," pieces) = false ->
  author_list (Py.join "," pieces) = map Py.strip (filter Py.nonempty pieces).
Proof.
  intros Hnc Hne Hand. unfold author_list.
  rewrite (split_no_sep _ _ Hand). cbn [flat_map]. rewrite app_nil_r.
  now rewrite (split_join_comma pieces Hnc Hne).
Qed.

Ltac prove_no_comma :=
  unfold no_comma; cbn [list_ascii_of_string];
  repeat (apply Forall_cons; [discriminate |]); apply Forall_nil.

Ltac prove_simple_name :=
  split; [reflexivity | split; [vm_compute; discriminate | vm_compute; discriminate]].

(** X11: on a field made of comma-free pieces joined with commas, with no
    [" and "] in it, [author_list] gives back the non-empty pieces, stripped
    and in order. *)
Theorem author_list_of_comma_join (pieces : list string) :
  Forall no_comma pieces ->
  pieces <> [] ->
  Py.contains " and " (Py.join "," pieces) = false ->
  author_list (Py.join "," pieces) = map Py.strip (filter Py.nonempty pieces).
Proof. apply author_list_comma_join. Qed.

Lemma author_list_of_comma_join_witness :
  Py.join "," ["A. One"; ""; "  B. Two "] = "A. One,,  B. Two "
  /\ author_list "A. One,,  B. Two " = ["A. One"; "B. Two"].
Proof.
  split; [reflexivity |].
  refine (author_list_of_comma_join ["A. One"; ""; "  B. Two "] _ _ eq_refl).
  - repeat (apply Forall_cons; [prove_no_comma |]). apply Forall_nil.
  - discriminate.
Defined.

(** X12: for plain names separated by commas, [get_last_names] returns the
    final tokens of the names, in order, joined by the two return
    statements: the last names come out one per author and in author
    order. *)
Theorem comma_separated_last_names (pieces : list string) :
  Forall no_comma pieces ->
  Forall simple_name pieces ->
  pieces <> [] ->
  Py.contains " and " (Py.join "," pieces) = false ->
  formatted_authors (Py.join "," pieces) = Ok (map last_token pieces)
  /\ get_last_names (Py.join "," pieces) = join_names (map last_token pieces)
  /\ exists r, get_last_names (Py.join "," pieces) = Ok r.
Proof.
  intros Hnc Hsimple Hne Hand.
  assert (Hfa : formatted_authors (Py.join "," pieces)
                = Ok (map last_token pieces)).
  { unfold formatted_authors.
    rewrite (author_list_comma_join pieces Hnc Hne Hand).
    assert (Hkeep : filter Py.nonempty pieces = pieces).
    { apply forallb_filter_id. apply forallb_forall. intros s Hs.
      rewrite Forall_forall in Hsimple. now apply simple_name_nonempty, Hsimple. }
    rewrite Hkeep. now rewrite (format_loop_simple pieces [] Hsimple). }
  split; [exact Hfa |].
  assert (Hget : get_last_names (Py.join "," pieces)
                 = join_names (map last_token pieces)).
  { unfold get_last_names. now rewrite Hfa. }
  split; [exact Hget |]. rewrite Hget.
  destruct pieces as [| p [| q ps]]; [contradiction | |].
  - eexists. apply join_names_one.
  - eexists. apply join_names_many. cbn. lia.
Qed.

Lemma comma_separated_last_names_witness :
  Py.join "," ["A. One"; " B. Two"; " C. Three"] = "A. One, B. Two, C. Three"
  /\ formatted_authors "A. One, B. Two, C. Three" = Ok ["One"; "Two"; "Three"]
  /\ get_last_names "A. One, B. Two, C. Three" = Ok "One, Two & Three".
Proof.
  assert (Hnc : Forall no_comma ["A. One"; " B. Two"; " C. Three"]).
  { repeat (apply Forall_cons; [prove_no_comma |]). apply Forall_nil. }
  assert (Hsimple : Forall simple_name ["A. One"; " B. Two"; " C. Three"]).
  { repeat (apply Forall_cons; [prove_simple_name |]). apply Forall_nil. }
  assert (Hne : ["A. One"; " B. Two"; " C. Three"] <> []) by discriminate.
  split; [reflexivity |]. split.
  - exact (proj1 (comma_separated_last_names _ Hnc Hsimple Hne eq_refl)).
  - exact (proj1 (proj2 (comma_separated_last_names _ Hnc Hsimple Hne eq_refl))).
Defined.


(** ** The order on strings *)

Lemma compare_as_OT (a b : string) :
  String.compare a b = String_as_OT.compare a b.
Proof.
  revert b. induction a as [| c a IH]; intros [| d b]; reflexivity.
Qed.

Lemma compare_refl (a : string) : String.compare a a = Eq.
Proof.
  rewrite compare_as_OT.
  destruct (String_as_OT.compare_spec a a) as [_ | H | H]; [reflexivity | |];
    exfalso; exact (StrictOrder_Irreflexive a H).
Qed.

Lemma compare_eq (a b : string) : String.compare a b = Eq <-> a = b.
Proof.
  split; [apply String.compare_eq_iff | intros ->; apply compare_refl].
Qed.

Lemma str_lt_trans (a b c : string) : str_lt a b -> str_lt b c -> str_lt a c.
Proof.
  unfold str_lt. rewrite !compare_as_OT.
  exact (StrictOrder_Transitive (R := String_as_OT.lt) a b c).
Qed.

Lemma str_lt_irrefl (a : string) : ~ str_lt a a.
Proof. unfold str_lt. rewrite compare_refl. discriminate. Qed.

Lemma compare_gt_lt (a b : string) :
  String.compare a b = Gt <-> String.compare b a = Lt.
Proof.
  rewrite (String.compare_antisym b a).
  destruct (String.compare a b); cbn; split; congruence.
Qed.

Lemma str_le_cases (a b : string) : str_le a b <-> str_lt a b \/ a = b.
Proof.
  unfold str_le, str_lt. rewrite <- compare_eq.
  destruct (String.compare a b); split; intros H;
    try congruence; try (now left); try (now right).
  destruct H; discriminate.
Qed.

Lemma str_le_trans (a b c : string) : str_le a b -> str_le b c -> str_le a c.
Proof.
  rewrite !str_le_cases. intros [Hab | ->] [Hbc | ->]; auto.
  left. now apply (str_lt_trans a b c).
Qed.

Lemma str_le_refl (a : string) : str_le a a.
Proof. unfold str_le. rewrite compare_refl. discriminate. Qed.

Lemma leb_le (a b : string) : String.leb a b = true <-> str_le a b.
Proof.
  unfold String.leb, str_le.
  destruct (String.compare a b); split; congruence.
Qed.

Lemma str_le_total (a b : string) : str_le a b \/ str_le b a.
Proof.
  rewrite <- !leb_le. apply String.leb_total.
Qed.

Lemma ltb_not_leb (a b : string) : String.ltb a b = negb (String.leb b a).
Proof.
  unfold String.ltb, String.leb. rewrite (String.compare_antisym a b).
  now destruct (String.compare b a).
Qed.


(** ** The cells of a column *)

Lemma same_spec {d : dtype} (x y : cell d) : reflect (x = y) (Cell.same x y).
Proof.
  destruct d; cbn in *.
  - destruct x as [a |], y as [b |]; try (constructor; congruence).
    destruct (String.eqb_spec a b); constructor; congruence.
  - apply Z.eqb_spec.
Qed.

Lemma cell_eq_dec {d : dtype} (x y : cell d) : {x = y} + {x <> y}.
Proof. destruct (same_spec x y); [now left | now right]. Qed.

(** On a cell that holds a value, [==] is equality. *)
Lemma eqb_present_spec {d : dtype} (x y : cell d) :
  present x -> reflect (x = y) (Cell.eqb x y).
Proof.
  unfold present. destruct d; cbn in *.
  - destruct x as [a |], y as [b |]; intros H; try discriminate;
      try (constructor; congruence).
    destruct (String.eqb_spec a b); constructor; congruence.
  - intros _. apply Z.eqb_spec.
Qed.

Lemma eqb_true {d : dtype} (x y : cell d) :
  Cell.eqb x y = true -> x = y /\ present y.
Proof.
  unfold present. destruct d; cbn in *.
  - destruct x as [a |], y as [b |]; try discriminate.
    intros H. apply String.eqb_eq in H. now subst.
  - intros H. apply Z.eqb_eq in H. now split.
Qed.

(** Nothing equals a missing cell. *)
Lemma eqb_missing {d : dtype} (x y : cell d) :
  missing y -> Cell.eqb x y = false.
Proof.
  unfold missing. destruct d; cbn in *; [| discriminate].
  destruct x, y; intros H; try reflexivity; discriminate.
Qed.

Lemma present_or_missing {d : dtype} (x : cell d) : present x \/ missing x.
Proof. unfold present, missing. destruct (Cell.isna x); auto. Qed.

Lemma lt_present {d : dtype} (x y : cell d) :
  present x -> present y -> Cell.lt x y = Ok (negb (Cell.leb y x)).
Proof.
  unfold present. destruct d; cbn in *.
  - destruct x as [a |], y as [b |]; intros Hx Hy; try discriminate.
    now rewrite ltb_not_leb.
  - intros _ _. now rewrite Z.ltb_antisym.
Qed.

Lemma lt_missing {d : dtype} (x y : cell d) :
  missing x -> missing y -> Cell.lt x y = Ok false.
Proof.
  unfold missing. destruct d; cbn in *; [| discriminate].
  destruct x, y; intros Hx Hy; try discriminate. reflexivity.
Qed.

Lemma lt_mixed {d : dtype} (x y : cell d) :
  Cell.isna x <> Cell.isna y -> Cell.lt x y = Raise TypeError.
Proof.
  destruct d; cbn in *; [| congruence].
  destruct x, y; intros H; try reflexivity; congruence.
Qed.

Lemma cell_leb_le {d : dtype} (x y : cell d) :
  Cell.leb x y = true <-> cell_le x y.
Proof.
  destruct d; cbn in *.
  - destruct x as [a |], y as [b |]; try apply leb_le; split; auto;
      try discriminate; contradiction.
  - apply Z.leb_le.
Qed.

Lemma cell_le_total {d : dtype} (x y : cell d) : cell_le x y \/ cell_le y x.
Proof.
  destruct d; cbn in *.
  - destruct x as [a |], y as [b |]; auto. apply str_le_total.
  - lia.
Qed.

Lemma cell_le_trans {d : dtype} (x y z : cell d) :
  cell_le x y -> cell_le y z -> cell_le x z.
Proof.
  destruct d; cbn in *.
  - destruct x as [a |], y as [b |], z as [c |]; auto; try contradiction.
    apply str_le_trans.
  - lia.
Qed.

Lemma cell_le_refl {d : dtype} (x : cell d) : cell_le x x.
Proof.
  destruct d; cbn in *; [| lia].
  destruct x; [apply str_le_refl | exact I].
Qed.


Lemma cell_lt_irrefl {d : dtype} (x : cell d) : ~ cell_lt x x.
Proof.
  destruct d; cbn in *; [| lia].
  destruct x; [apply str_lt_irrefl | auto].
Qed.


(** ** The stable sort *)

Section InsertionSortFacts.

Variable A : Type.
Variable leb : A -> A -> bool.

Let le (x y : A) : Prop := leb x y = true.

Lemma insert_perm (x : A) (l : list A) : Permutation (insert leb x l) (x :: l).
Proof.
  induction l as [| y l IH]; cbn [insert]; [reflexivity |].
  destruct (leb x y); [reflexivity |].
  rewrite IH. apply perm_swap.
Qed.

Lemma stable_sort_perm (l : list A) : Permutation (stable_sort leb l) l.
Proof.
  induction l as [| x l IH]; cbn [stable_sort fold_right]; [reflexivity |].
  fold (stable_sort leb l). rewrite insert_perm. now constructor.
Qed.

(** Inserting [x] moves it past elements that [p] rejects whenever [p]
    accepts only elements that [x] does not exceed. *)
Lemma filter_insert (p : A -> bool) (x : A) (l : list A) :
  (forall y, p x = true -> p y = true -> leb x y = true) ->
  filter p (insert leb x l) = filter p (x :: l).
Proof.
  intros Hp. induction l as [| y l IH]; cbn [insert]; [reflexivity |].
  destruct (leb x y) eqn:Hxy; [reflexivity |].
  cbn [filter] in *. rewrite IH.
  destruct (p x) eqn:Hx, (p y) eqn:Hy; try reflexivity.
  rewrite (Hp y eq_refl Hy) in Hxy. discriminate.
Qed.

Lemma filter_stable_sort (p : A -> bool) (l : list A) :
  (forall x y, p x = true -> p y = true -> leb x y = true) ->
  filter p (stable_sort leb l) = filter p l.
Proof.
  intros Hp. induction l as [| x l IH]; [reflexivity |].
  cbn [stable_sort fold_right]. fold (stable_sort leb l).
  rewrite filter_insert by (intros y; apply Hp).
  cbn [filter]. now rewrite IH.
Qed.

Lemma stable_sort_sorted_id (l : list A) :
  StronglySorted le l -> stable_sort leb l = l.
Proof.
  induction 1 as [| x l Hs IH Hx]; [reflexivity |].
  cbn [stable_sort fold_right]. fold (stable_sort leb l). rewrite IH.
  destruct l as [| y l]; [reflexivity |].
  cbn [insert]. inversion Hx as [| ? ? Hxy _]; subst.
  unfold le in Hxy. now rewrite Hxy.
Qed.

(** The insertion with a comparison that may raise does what [insert] does
    as long as the comparison returns. *)
Lemma insert_lt_pure (lt : A -> A -> result bool) (P : A -> Prop)
  (x : A) (l : list A) :
  (forall a b, P a -> P b -> lt a b = Ok (negb (leb b a))) ->
  P x -> Forall P l ->
  insert_lt lt x l = Ok (insert leb x l).
Proof.
  intros Hlt Hx. induction 1 as [| y l Hy Hl IH]; [reflexivity |].
  cbn [insert_lt insert]. rewrite (Hlt y x Hy Hx). cbn [bind].
  destruct (leb x y); cbn [negb]; [reflexivity |].
  now rewrite IH.
Qed.

Lemma sorted_by_pure (lt : A -> A -> result bool) (P : A -> Prop)
  (l : list A) :
  (forall a b, P a -> P b -> lt a b = Ok (negb (leb b a))) ->
  Forall P l ->
  sorted_by lt l = Ok (stable_sort leb l).
Proof.
  intros Hlt. induction 1 as [| x l Hx Hl IH]; [reflexivity |].
  cbn [sorted_by stable_sort fold_right]. fold (stable_sort leb l).
  rewrite IH. cbn [bind].
  apply (insert_lt_pure lt P); [exact Hlt | exact Hx |].
  apply (Permutation_Forall (Permutation_sym (stable_sort_perm l))).
  exact Hl.
Qed.

Hypothesis le_total : forall x y, le x y \/ le y x.
Hypothesis le_trans : forall x y z, le x y -> le y z -> le x z.

Lemma insert_sorted (x : A) (l : list A) :
  StronglySorted le l -> StronglySorted le (insert leb x l).
Proof.
  induction 1 as [| y l Hs IH Hy]; cbn [insert].
  - repeat constructor.
  - destruct (leb x y) eqn:Hxy.
    + constructor; [now constructor |].
      constructor; [exact Hxy |].
      eapply Forall_impl; [| exact Hy]. intros z Hz. now apply (le_trans x y z).
    + constructor; [exact IH |].
      apply (Permutation_Forall (Permutation_sym (insert_perm x l))).
      constructor; [| exact Hy].
      destruct (le_total x y) as [H | H]; [| exact H].
      unfold le in H. congruence.
Qed.

Lemma stable_sort_sorted (l : list A) : StronglySorted le (stable_sort leb l).
Proof.
  induction l as [| x l IH]; cbn [stable_sort fold_right]; [constructor |].
  now apply insert_sorted.
Qed.

End InsertionSortFacts.

(** ** [sorted] and [unique] *)

(** The three ways [sorted] can go: on values only it sorts them, on NaN
    only it has nothing to move, and with both it raises [TypeError]. *)
Lemma sorted_cases {d : dtype} (l : list (cell d)) :
  (Forall present l /\ sorted l = Ok (stable_sort Cell.leb l))
  \/ (Forall missing l /\ l <> [] /\ sorted l = Ok l)
  \/ (Exists missing l /\ Exists present l /\ sorted l = Raise TypeError).
Proof.
  unfold sorted.
  induction l as [| x l IH]; [left; split; [constructor | reflexivity] |].
  cbn [sorted_by].
  destruct IH as [[Hall Hs] | [[Hall [Hne Hs]] | [Hm [Hp Hs]]]].
  - destruct (present_or_missing x) as [Hx | Hx].
    + left. split; [now constructor |].
      rewrite <- (sorted_by_pure _ Cell.leb Cell.lt present (x :: l));
        [reflexivity | intros a b; apply lt_present | now constructor].
    + destruct l as [| y l].
      * right. left. split; [now repeat constructor |].
        split; [discriminate | reflexivity].
      * right. right. split; [now left |]. split; [now right; left; inversion Hall |].
        rewrite Hs. cbn [bind].
        pose proof (stable_sort_perm _ Cell.leb (y :: l)) as Hperm.
        destruct (stable_sort Cell.leb (y :: l)) as [| z s] eqn:Hz.
        { apply Permutation_nil in Hperm. discriminate. }
        cbn [insert_lt]. rewrite lt_mixed; [reflexivity |].
        assert (Hzp : present z).
        { rewrite Forall_forall in Hall. apply Hall.
          apply (Permutation_in _ Hperm). now left. }
        unfold present in Hzp. unfold missing in Hx. congruence.
  - destruct l as [| y l]; [contradiction |].
    inversion Hall as [| ? ? Hy Hl]; subst.
    rewrite Hs. cbn [bind insert_lt].
    destruct (present_or_missing x) as [Hx | Hx].
    + right. right. split; [now right; left |]. split; [now left |].
      rewrite lt_mixed; [reflexivity |].
      unfold present in Hx. unfold missing in Hy. congruence.
    + right. left. split; [now constructor |]. split; [discriminate |].
      now rewrite (lt_missing y x Hy Hx).
  - right. right. split; [now right |]. split; [now right |].
    now rewrite Hs.
Qed.

Lemma sorted_perm {d : dtype} (l s : list (cell d)) :
  sorted l = Ok s -> Permutation s l.
Proof.
  destruct (sorted_cases l) as [[_ Hs] | [[_ [_ Hs]] | [_ [_ Hs]]]];
    rewrite Hs; [| | discriminate]; intros [= <-];
    [apply stable_sort_perm | reflexivity].
Qed.



Lemma unique_In {d : dtype} (x : cell d) (l : list (cell d)) :
  In x (unique l) <-> In x l.
Proof.
  induction l as [| y l IH]; cbn [unique]; [reflexivity |].
  cbn [In]. rewrite filter_In, IH, negb_true_iff.
  destruct (same_spec x y) as [-> | Hne]; [tauto |].
  split; [tauto |]. intros [H | H]; [tauto | right; now split].
Qed.




Lemma sorted_lt_NoDup {d : dtype} (l : list (cell d)) :
  StronglySorted cell_lt l -> NoDup l.
Proof.
  induction 1 as [| a l Hs IH Ha]; constructor; [| exact IH].
  intros Hin. rewrite Forall_forall in Ha.
  exact (cell_lt_irrefl a (Ha a Hin)).
Qed.

(** ** [sort_values] *)

(** [key_leb] decides the order of the rows. *)
Lemma key_leb_le {dc da dt : dtype} (a b : NamedRow dc da dt) :
  key_leb a b = true <-> key_le a b.
Proof.
  unfold key_leb, key_le, str_lt.
  destruct (String.compare (Last_Names a) (Last_Names b)) eqn:Hc.
  - apply compare_eq in Hc. rewrite cell_leb_le. split.
    + intros H. right. now split.
    + intros [H | [_ H]]; [discriminate | exact H].
  - split; [now left | reflexivity].
  - split; [discriminate |].
    intros [H | [H _]]; [discriminate |].
    rewrite H, compare_refl in Hc. discriminate.
Qed.

Lemma key_le_total {dc da dt : dtype} (a b : NamedRow dc da dt) :
  key_le a b \/ key_le b a.
Proof.
  unfold key_le, str_lt.
  destruct (String.compare (Last_Names a) (Last_Names b)) eqn:Hc.
  - apply compare_eq in Hc.
    destruct (cell_le_total (Title (base a)) (Title (base b)));
      [left | right]; right; auto.
  - left. now left.
  - right. left. now apply compare_gt_lt.
Qed.

Lemma key_le_trans {dc da dt : dtype} (a b c : NamedRow dc da dt) :
  key_le a b -> key_le b c -> key_le a c.
Proof.
  unfold key_le.
  intros [H12 | [E12 L12]] [H23 | [E23 L23]].
  - left. now apply (str_lt_trans _ (Last_Names b)).
  - left. now rewrite <- E23.
  - left. now rewrite E12.
  - right. split; [congruence | now apply (cell_le_trans _ (Title (base b)))].
Qed.

Lemma sort_values_perm {dc da dt : dtype} (l : list (NamedRow dc da dt)) :
  Permutation (sort_values l) l.
Proof. apply stable_sort_perm. Qed.

Lemma sorted_key_leb_le {dc da dt : dtype} (l : list (NamedRow dc da dt)) :
  StronglySorted (fun a b => key_leb a b = true) l <-> StronglySorted key_le l.
Proof.
  split; induction 1 as [| a s Hs IH Ha]; constructor; try exact IH;
    (eapply Forall_impl; [| exact Ha]); intros b; apply key_leb_le.
Qed.

Lemma sort_values_sorted {dc da dt : dtype} (l : list (NamedRow dc da dt)) :
  StronglySorted key_le (sort_values l).
Proof.
  apply sorted_key_leb_le. apply stable_sort_sorted.
  - intros x y. rewrite !key_leb_le. apply key_le_total.
  - intros x y z. rewrite !key_leb_le. apply key_le_trans.
Qed.

Lemma has_key_sort_key {dc da dt : dtype} (k : string * cell dt)
  (r : NamedRow dc da dt) :
  has_key k r = true <-> sort_key r = k.
Proof.
  unfold has_key, sort_key. destruct k as [k1 k2]. cbn [fst snd].
  rewrite andb_true_iff, String.eqb_eq.
  destruct (same_spec (Title (base r)) k2) as [-> | Hne]; split.
  - intros [-> _]. reflexivity.
  - intros [= ->]. now split.
  - intros [_ H]. discriminate.
  - intros [= _ H]. contradiction.
Qed.

Lemma sort_values_stable {dc da dt : dtype} (k : string * cell dt)
  (l : list (NamedRow dc da dt)) :
  filter (has_key k) (sort_values l) = filter (has_key k) l.
Proof.
  apply filter_stable_sort. intros x y Hx Hy.
  apply key_leb_le.
  apply has_key_sort_key in Hx, Hy.
  assert (Hxy : sort_key x = sort_key y) by congruence.
  injection Hxy as Hn Ht. right. split; [exact Hn |].
  rewrite Ht. apply cell_le_refl.
Qed.

(** ** The categories *)

Lemma categories_perm {dc da dt : dtype} (df : DataFrame dc da dt)
  (cs : list (cell dc)) :
  categories df = Ok cs -> Permutation cs (unique (map Category df)).
Proof. apply sorted_perm. Qed.

Lemma categories_In {dc da dt : dtype} (df : DataFrame dc da dt)
  (cs : list (cell dc)) (c : cell dc) :
  categories df = Ok cs -> (In c cs <-> In c (map Category df)).
Proof.
  intros H. apply categories_perm in H.
  rewrite <- (unique_In c (map Category df)).
  split; apply Permutation_in; [exact H | now symmetry].
Qed.




(** ** What is written *)

Lemma concat_empty_cons (x : string) (l : list string) :
  String.concat "" (x :: l) = x ++ String.concat "" l.
Proof.
  destruct l as [| y l]; cbn [String.concat]; [now rewrite append_nil_r |].
  reflexivity.
Qed.

(** The line written for a row is the row as Markdown text: the three cells
    between bars, the third being [isbn_cell]. *)
Lemma row_line_cells {dc da dt : dtype} (row : NamedRow dc da dt) :
  row_line row = row_text row.
Proof.
  unfold row_line, row_text, isbn_cell.
  destruct (ISBN_10 (base row) =? "Pre-ISBN"); [reflexivity |].
  destruct (ISBN_10 (base row) =? "No ISBN"); [reflexivity |].
  destruct (ISBN_10 (base row) =? "LCCN"); reflexivity.
Qed.

Lemma write_rows_append {dc da dt : dtype} (rows : list (NamedRow dc da dt))
  (f : string) :
  write_rows f rows = f ++ String.concat "" (map row_text rows).
Proof.
  revert f. induction rows as [| row rows IH]; intros f; cbn [write_rows map].
  - cbn. now rewrite append_nil_r.
  - rewrite IH, concat_empty_cons, row_line_cells. unfold write.
    now rewrite append_assoc.
Qed.

Lemma render_cons {dc da dt : dtype} (t : Table dc da dt)
  (ts : list (Table dc da dt)) :
  render (t :: ts) = render_table t ++ render ts.
Proof. unfold render. cbn [map]. apply concat_empty_cons. Qed.

(** The text of one complete section, as the loop body writes it. *)
Lemma section_written {dc da dt : dtype} (f : string) (category : cell dc)
  (sorted_df : list (NamedRow dc da dt)) :
  write
    (write_rows
       (write (write (write f ("## " ++ Cell.str category ++ nl ++ nl))
                 ("| Author | Title | ISBN |" ++ nl))
          ("| ------ | ----- | ---- |" ++ nl))
       sorted_df)
    nl
  = f ++ render_table (category, sorted_df).
Proof.
  rewrite write_rows_append. unfold write, render_table, heading, table_header.
  cbn [fst snd]. now rewrite !append_assoc.
Qed.

Lemma write_categories_ok {dc da dt : dtype} (df : DataFrame dc da dt)
  (cs : list (cell dc)) :
  forall (f : string) (ts : list (Table dc da dt)),
    tables_of df cs = Ok ts ->
    write_categories df cs f = (Ok tt, f ++ render ts).
Proof.
  induction cs as [| c cs IH]; intros f ts; cbn [tables_of write_categories].
  - intros [= <-]. cbn. now rewrite append_nil_r.
  - unfold table_of.
    destruct (add_last_names (category_df df c)) as [named |]; cbn [bind];
      [| discriminate].
    destruct (tables_of df cs) as [ts' |] eqn:Hts; cbn [bind]; [| discriminate].
    intros [= <-].
    rewrite section_written, (IH _ ts' eq_refl).
    unfold render. cbn [map]. rewrite concat_empty_cons.
    now rewrite append_assoc.
Qed.

Lemma write_categories_raise {dc da dt : dtype} (df : DataFrame dc da dt)
  (cs : list (cell dc)) :
  forall (f : string) (e : exn),
    tables_of df cs = Raise e ->
    exists done category rest ts,
      cs = (done ++ category :: rest)%list
      /\ tables_of df done = Ok ts
      /\ add_last_names (category_df df category) = Raise e
      /\ write_categories df cs f = (Raise e, f ++ render ts ++ heading category).
Proof.
  induction cs as [| c cs IH]; intros f e; cbn [tables_of write_categories];
    [discriminate |].
  unfold table_of.
  destruct (add_last_names (category_df df c)) as [named | e'] eqn:Hadd;
    cbn [bind].
  - destruct (tables_of df cs) as [ts' | e''] eqn:Hts; cbn [bind]; [discriminate |].
    intros [= ->].
    destruct (IH (write
                    (write_rows
                       (write (write (write f ("## " ++ Cell.str c ++ nl ++ nl))
                                 ("| Author | Title | ISBN |" ++ nl))
                          ("| ------ | ----- | ---- |" ++ nl))
                       (sort_values named)) nl) e eq_refl)
      as [done [category [rest [ts [-> [Hdone [Hraise Hw]]]]]]].
    exists (c :: done), category, rest, ((c, sort_values named) :: ts).
    split; [reflexivity |]. split.
    { cbn [tables_of]. unfold table_of. rewrite Hadd, Hdone. reflexivity. }
    split; [exact Hraise |].
    rewrite Hw, section_written.
    unfold render. cbn [map]. rewrite concat_empty_cons.
    now rewrite !append_assoc.
  - intros [= ->].
    exists [], c, cs, [].
    split; [reflexivity |]. split; [reflexivity |]. split; [exact Hadd |].
    unfold write, heading. reflexivity.
Qed.

(** A run that ends normally has sorted the categories and built every
    table, and has written the tables. *)
Lemma md_from_csv_ok {dc da dt : dtype} (df : DataFrame dc da dt)
  (md : option string) :
  fst (md_from_csv df md) = Ok tt ->
  exists cs ts,
    categories df = Ok cs
    /\ tables_of df cs = Ok ts
    /\ tables df = Ok ts
    /\ md_from_csv df md = (Ok tt, Some (render ts)).
Proof.
  unfold md_from_csv, tables.
  destruct (categories df) as [cs | e] eqn:Hcs; [| discriminate].
  cbn [bind]. cbv zeta.
  destruct (tables_of df cs) as [ts | e] eqn:Hts.
  - intros _. exists cs, ts.
    split; [reflexivity |]. split; [exact Hts |]. split; [reflexivity |].
    now rewrite (write_categories_ok _ _ "" ts Hts).
  - destruct (write_categories_raise _ _ "" e Hts)
      as [done [category [rest [ts [_ [_ [_ Hw]]]]]]].
    rewrite Hw. cbn. discriminate.
Qed.


(** ** The tables *)

Lemma add_last_names_base {dc da dt : dtype} (rows : list (Row dc da dt)) :
  forall named, add_last_names rows = Ok named -> map base named = rows.
Proof.
  induction rows as [| r rows IH]; intros named; cbn [add_last_names].
  - intros [= <-]. reflexivity.
  - destruct (get_last_names_of (Authors r)) as [ln |]; cbn [bind];
      [| discriminate].
    destruct (add_last_names rows) as [named' |]; cbn [bind]; [| discriminate].
    intros [= <-]. cbn [map base]. now rewrite (IH named' eq_refl).
Qed.

Lemma add_last_names_formatted {dc da dt : dtype}
  (rows : list (Row dc da dt)) :
  forall named,
    add_last_names rows = Ok named ->
    Forall (fun n => get_last_names_of (Authors (base n)) = Ok (Last_Names n))
      named.
Proof.
  induction rows as [| r rows IH]; intros named; cbn [add_last_names].
  - intros [= <-]. constructor.
  - destruct (get_last_names_of (Authors r)) as [ln |] eqn:Hln; cbn [bind];
      [| discriminate].
    destruct (add_last_names rows) as [named' |]; cbn [bind]; [| discriminate].
    intros [= <-]. constructor; [exact Hln | now apply IH].
Qed.

Lemma add_last_names_ok_iff {dc da dt : dtype} (rows : list (Row dc da dt)) :
  (exists named, add_last_names rows = Ok named) <-> Forall formattable rows.
Proof.
  unfold formattable. induction rows as [| r rows IH]; cbn [add_last_names].
  - split; [constructor | now exists []].
  - rewrite Forall_cons_iff, <- IH.
    destruct (get_last_names_of (Authors r)) as [ln | e]; cbn [bind].
    + destruct (add_last_names rows) as [named | e]; cbn [bind].
      * split; [intros _ | intros _; eexists; reflexivity].
        split; eexists; reflexivity.
      * split; [intros [? H]; discriminate | intros [_ [? H]]; discriminate].
    + split; [intros [? H]; discriminate | intros [[? H] _]; discriminate].
Qed.



Lemma tables_of_fst {dc da dt : dtype} (df : DataFrame dc da dt)
  (cs : list (cell dc)) :
  forall ts, tables_of df cs = Ok ts -> map fst ts = cs.
Proof.
  induction cs as [| c cs IH]; intros ts; cbn [tables_of].
  - intros [= <-]. reflexivity.
  - unfold table_of.
    destruct (add_last_names (category_df df c)); cbn [bind]; [| discriminate].
    destruct (tables_of df cs) as [ts' |]; cbn [bind]; [| discriminate].
    intros [= <-]. cbn [map fst]. now rewrite (IH ts' eq_refl).
Qed.

Lemma tables_of_In {dc da dt : dtype} (df : DataFrame dc da dt)
  (cs : list (cell dc)) :
  forall ts category rows,
    tables_of df cs = Ok ts ->
    In (category, rows) ts ->
    In category cs
    /\ exists named_df,
         add_last_names (category_df df category) = Ok named_df
         /\ rows = sort_values named_df.
Proof.
  induction cs as [| c cs IH]; intros ts category rows; cbn [tables_of].
  - intros [= <-] [].
  - unfold table_of.
    destruct (add_last_names (category_df df c)) as [named |] eqn:Hadd;
      cbn [bind]; [| discriminate].
    destruct (tables_of df cs) as [ts' |]; cbn [bind]; [| discriminate].
    intros [= <-] [[= <- <-] | Hin].
    + split; [now left | now exists named].
    + destruct (IH ts' category rows eq_refl Hin) as [Hc Hex].
      split; [now right | exact Hex].
Qed.


Lemma tables_of_ok_iff {dc da dt : dtype} (df : DataFrame dc da dt)
  (cs : list (cell dc)) :
  (exists ts, tables_of df cs = Ok ts)
  <-> forall c, In c cs -> Forall formattable (category_df df c).
Proof.
  induction cs as [| c cs IH]; cbn [tables_of].
  - split; [intros _ c [] | now exists []].
  - unfold table_of. split.
    + intros [ts Hts] c' [<- | Hc'].
      * apply add_last_names_ok_iff.
        destruct (add_last_names (category_df df c)) as [named |];
          [now exists named | discriminate].
      * apply IH; [| exact Hc'].
        destruct (add_last_names (category_df df c)); cbn [bind] in Hts;
          [| discriminate].
        destruct (tables_of df cs) as [ts' |]; [now exists ts' | discriminate].
    + intros H.
      destruct (proj2 (add_last_names_ok_iff (category_df df c))
                  (H c (or_introl eq_refl))) as [named ->].
      destruct (proj2 IH (fun c' Hc' => H c' (or_intror Hc'))) as [ts' ->].
      cbn [bind]. eexists. reflexivity.
Qed.

Lemma category_df_In {dc da dt : dtype} (df : DataFrame dc da dt)
  (r : Row dc da dt) (c : cell dc) :
  In r (category_df df c) <-> In r df /\ Category r = c /\ present c.
Proof.
  unfold category_df. rewrite filter_In. split.
  - intros [Hr H]. apply eqb_true in H. tauto.
  - intros [Hr [<- Hp]]. split; [exact Hr |].
    destruct (eqb_present_spec (Category r) (Category r) Hp);
      [reflexivity | congruence].
Qed.

Lemma category_df_missing {dc da dt : dtype} (df : DataFrame dc da dt)
  (c : cell dc) :
  missing c -> category_df df c = [].
Proof.
  intros Hm. unfold category_df. induction df as [| r df IH]; [reflexivity |].
  cbn [filter]. now rewrite (eqb_missing (Category r) c Hm).
Qed.


(** ** Properties of [md_from_csv] *)

(** C1, as the code has it: for a row whose [ISBN-10] value is none of
    ["Pre-ISBN"], ["No ISBN"], ["LCCN"], the ISBN column of the written line
    is the value of the row's [ISBN-13] field. *)
Theorem default_isbn_column_is_isbn13 {dc da dt : dtype}
  (row : NamedRow dc da dt) :
  ~ sentinel (ISBN_10 (base row)) ->
  isbn_cell (ISBN_10 (base row)) (ISBN_13 (base row)) = ISBN_13 (base row)
  /\ row_line row =
     "| " ++ Last_Names row ++ " | *" ++ Cell.str (Title (base row)) ++ "* | "
     ++ ISBN_13 (base row) ++ " |" ++ nl.
Proof.
  unfold sentinel. intros Hns.
  assert (Hcell : isbn_cell (ISBN_10 (base row)) (ISBN_13 (base row))
                  = ISBN_13 (base row)).
  { unfold isbn_cell.
    destruct (String.eqb_spec (ISBN_10 (base row)) "Pre-ISBN"); [tauto |].
    destruct (String.eqb_spec (ISBN_10 (base row)) "No ISBN"); [tauto |].
    destruct (String.eqb_spec (ISBN_10 (base row)) "LCCN"); [tauto |].
    reflexivity. }
  split; [exact Hcell |]. rewrite row_line_cells. unfold row_text.
  now rewrite Hcell.
Qed.

Lemma isbn_row_not_sentinel : ~ sentinel (ISBN_10 (base isbn_row)).
Proof. unfold sentinel. cbn. intros [H | [H | H]]; discriminate. Defined.

Lemma default_isbn_column_is_isbn13_witness :
  ~ sentinel (ISBN_10 (base isbn_row))
  /\ row_line isbn_row = "| Feynman | *QED* | 978-0-123-45678-6 |" ++ nl.
Proof.
  split; [exact isbn_row_not_sentinel |].
  exact (proj2 (default_isbn_column_is_isbn13 isbn_row isbn_row_not_sentinel)).
Defined.

(** C1 as stated fails: the row below has an ordinary [ISBN-10] value, and
    that value occurs neither in the ISBN column nor anywhere else in the
    line written for the row. *)
Lemma isbn10_value_not_rendered :
  ~ sentinel (ISBN_10 (base isbn_row))
  /\ ISBN_10 (base isbn_row) = "0-123-45678-9"
  /\ isbn_cell (ISBN_10 (base isbn_row)) (ISBN_13 (base isbn_row))
     = "978-0-123-45678-6"
  /\ ~ substring_of (ISBN_10 (base isbn_row))
         (isbn_cell (ISBN_10 (base isbn_row)) (ISBN_13 (base isbn_row)))
  /\ ~ substring_of (ISBN_10 (base isbn_row)) (row_line isbn_row).
Proof.
  split; [exact isbn_row_not_sentinel |].
  split; [reflexivity |]. split; [reflexivity |].
  split; intros H; apply substring_of_contains in H; vm_compute in H;
    discriminate.
Qed.

(** C2 as stated fails: on [failing_df] the conversion ends in [IndexError]
    and the destination, which held other text, now holds the section
    of the first category and the heading of the second. *)
Lemma failure_mutates_destination :
  md_from_csv failing_df (Some "earlier text") =
  (Raise IndexError,
   Some ("## Physics" ++ nl ++ nl ++
         "| Author | Title | ISBN |" ++ nl ++
         "| ------ | ----- | ---- |" ++ nl ++
         "| Zee | *Group Theory* | No ISBN |" ++ nl ++
         nl ++
         "## Poetry" ++ nl ++ nl))
  /\ ~ (forall (dc da dt : dtype) (df : DataFrame dc da dt)
               (md : option string) (e : exn),
          fst (md_from_csv df md) = Raise e -> snd (md_from_csv df md) = md).
Proof.
  split; [vm_compute; reflexivity |].
  intros H.
  specialize (H _ _ _ failing_df (Some "earlier text") IndexError eq_refl).
  vm_compute in H. discriminate.
Qed.

(** C2, as the code has it: once the categories are sorted the destination
    is opened for writing, hence emptied, before the first category is
    handled; when the conversion fails from there on, the failure is that of
    [get_last_names] on a row of some category, and the destination is left
    with the complete sections of the categories before that one followed by
    the heading of that one. *)
Theorem failure_leaves_partial_output {dc da dt : dtype}
  (df : DataFrame dc da dt) (md : option string) (e : exn)
  (cs : list (cell dc)) :
  categories df = Ok cs ->
  fst (md_from_csv df md) = Raise e ->
  exists done category rest ts,
    cs = (done ++ category :: rest)%list
    /\ tables_of df done = Ok ts
    /\ add_last_names (category_df df category) = Raise e
    /\ snd (md_from_csv df md) = Some (render ts ++ heading category).
Proof.
  intros Hcs. unfold md_from_csv. rewrite Hcs. cbv zeta.
  destruct (tables_of df cs) as [ts | e'] eqn:Hts.
  - rewrite (write_categories_ok _ _ "" ts Hts). cbn. discriminate.
  - destruct (write_categories_raise _ _ "" e' Hts)
      as [done [category [rest [ts [Hdone_eq [Hdone [Hraise Hw]]]]]]].
    rewrite Hw. cbn [fst snd append]. intros [= <-].
    now exists done, category, rest, ts.
Qed.

Lemma failure_leaves_partial_output_witness :
  (categories failing_df = Ok [Some "Physics"; Some "Poetry"; Some "Zoology"]
   /\ fst (md_from_csv failing_df (Some "earlier text")) = Raise IndexError
   /\ exists (done : list (cell object)) (category : cell object)
          (rest : list (cell object)) ts,
        ([Some "Physics"; Some "Poetry"; Some "Zoology"] : list (cell object))
        = (done ++ category :: rest)%list
        /\ tables_of failing_df done = Ok ts
        /\ add_last_names (category_df failing_df category) = Raise IndexError
        /\ snd (md_from_csv failing_df (Some "earlier text"))
           = Some (render ts ++ heading category))
  /\ (categories missing_author_df = Ok [Some "Physics"; Some "Poetry"]
      /\ fst (md_from_csv missing_author_df None) = Raise AttributeError
      /\ exists (done : list (cell object)) (category : cell object)
          (rest : list (cell object)) ts,
           ([Some "Physics"; Some "Poetry"] : list (cell object))
           = (done ++ category :: rest)%list
           /\ tables_of missing_author_df done = Ok ts
           /\ add_last_names (category_df missing_author_df category)
              = Raise AttributeError
           /\ snd (md_from_csv missing_author_df None)
              = Some (render ts ++ heading category)).
Proof.
  split.
  - split; [reflexivity |]. split; [reflexivity |].
    exact (failure_leaves_partial_output failing_df (Some "earlier text")
             IndexError _ eq_refl eq_refl).
  - split; [reflexivity |]. split; [reflexivity |].
    exact (failure_leaves_partial_output missing_author_df None
             AttributeError _ eq_refl eq_refl).
Defined.



(** C3 as stated fails: when every title is a number the [Title] column is
    an [int64] column and the rows are ordered by the numbers, so the title
    2 is written before the title 10 although ["10"] comes before ["2"]
    lexicographically. *)
Lemma numeric_titles_not_lexicographic :
  md_from_csv numeric_titles_df None =
  (Ok tt, Some (
     "## Novels" ++ nl ++ nl ++
     "| Author | Title | ISBN |" ++ nl ++
     "| ------ | ----- | ---- |" ++ nl ++
     "| Writer | *2* | No ISBN |" ++ nl ++
     "| Writer | *10* | No ISBN |" ++ nl ++
     nl))
  /\ exists rows,
       tables numeric_titles_df = Ok [(Some "Novels", rows)]
       /\ map rendered_key rows = [("Writer", "2"); ("Writer", "10")]
       /\ ~ StronglySorted lex_le (map rendered_key rows).
Proof.
  split; [vm_compute; reflexivity |].
  eexists. split; [vm_compute; reflexivity |].
  split; [reflexivity |].
  cbn. intros H. inversion H as [| ? ? _ Hall]; subst.
  inversion Hall as [| ? ? Hle _]; subst.
  destruct Hle as [Hlt | [_ Hle]]; [discriminate Hlt |].
  apply Hle. reflexivity.
Qed.

(** C3, as the code has it: in every table of a run that ends normally the
    rows are in ascending order of the pair (last names, title), where the
    last names are those [get_last_names] gives for the row's authors and
    compare as strings, and the titles compare as values of the column:
    strings by code point with the missing titles after them, integers of
    an [int64] column by value; and for every key the rows with that key
    come in the order they have in the input frame. *)
Theorem rows_sorted_and_stable {dc da dt : dtype}
  (df : DataFrame dc da dt) (md : option string) :
  fst (md_from_csv df md) = Ok tt ->
  exists ts,
    tables df = Ok ts
    /\ snd (md_from_csv df md) = Some (render ts)
    /\ forall category rows,
         In (category, rows) ts ->
         StronglySorted key_le rows
         /\ exists named_df,
              add_last_names (category_df df category) = Ok named_df
              /\ map base named_df = category_df df category
              /\ Forall (fun n => get_last_names_of (Authors (base n))
                                  = Ok (Last_Names n)) named_df
              /\ Permutation rows named_df
              /\ forall k, filter (has_key k) rows = filter (has_key k) named_df.
Proof.
  intros Hok. destruct (md_from_csv_ok df md Hok) as [cs [ts [_ [Hof [Hts Hrun]]]]].
  exists ts. split; [exact Hts |]. split; [now rewrite Hrun |].
  intros category rows Hin.
  destruct (tables_of_In _ _ _ _ _ Hof Hin) as [_ [named [Hadd ->]]].
  split; [apply sort_values_sorted |].
  exists named. split; [exact Hadd |].
  split; [now apply add_last_names_base |].
  split; [now apply (add_last_names_formatted (category_df df category)) |].
  split; [apply sort_values_perm |].
  intros k. apply sort_values_stable.
Qed.

Lemma rows_sorted_and_stable_witness :
  fst (md_from_csv ties_df None) = Ok tt
  /\ match tables ties_df with
     | Ok ts => map (fun r => ISBN_13 (base r)) (concat (map snd ts))
     | Raise _ => []
     end = ["fourth"; "second"; "first"; "third"]
  /\ match tables missing_title_df with
     | Ok ts => map (fun r => ISBN_13 (base r)) (concat (map snd ts))
     | Raise _ => []
     end = ["third"; "second"; "first"]
  /\ exists ts,
       tables ties_df = Ok ts
       /\ snd (md_from_csv ties_df None) = Some (render ts)
       /\ forall category rows,
            In (category, rows) ts ->
            StronglySorted key_le rows
            /\ exists named_df,
                 add_last_names (category_df ties_df category) = Ok named_df
                 /\ map base named_df = category_df ties_df category
                 /\ Forall (fun n => get_last_names_of (Authors (base n))
                                     = Ok (Last_Names n)) named_df
                 /\ Permutation rows named_df
                 /\ forall k,
                      filter (has_key k) rows = filter (has_key k) named_df.
Proof.
  split; [reflexivity |]. split; [reflexivity |]. split; [reflexivity |].
  exact (rows_sorted_and_stable ties_df None eq_refl).
Defined.





(** ** More about the tables *)

Lemma render_table_In {dc da dt : dtype} (t : Table dc da dt)
  (ts : list (Table dc da dt)) :
  In t ts -> substring_of (render_table t) (render ts).
Proof.
  intros H. unfold render.
  apply (substring_of_join "" (render_table t) (map render_table ts)).
  now apply in_map.
Qed.

Lemma row_text_In {dc da dt : dtype} (category : cell dc)
  (n : NamedRow dc da dt) (rows : list (NamedRow dc da dt)) :
  In n rows -> substring_of (row_text n) (render_table (category, rows)).
Proof.
  intros H. unfold render_table. cbn [fst snd].
  apply substring_of_app_l, substring_of_app_l, substring_of_app_r.
  apply (substring_of_join "" (row_text n) (map row_text rows)).
  now apply in_map.
Qed.

Lemma heading_in_table {dc da dt : dtype} (t : Table dc da dt) :
  substring_of (heading (fst t)) (render_table t).
Proof.
  unfold render_table. apply substring_of_app_r, substring_of_refl.
Qed.

(** In a frame whose tables can all be built, a record with a category
    sits in the table of its category, with the last names of its authors
    beside it. *)
Lemma record_in_own_table {dc da dt : dtype} (df : DataFrame dc da dt)
  (cs : list (cell dc)) (ts : list (Table dc da dt)) (r : Row dc da dt) :
  categories df = Ok cs ->
  tables_of df cs = Ok ts ->
  In r df ->
  present (Category r) ->
  exists rows last_names,
    In (Category r, rows) ts
    /\ In (mkNamed r last_names) rows
    /\ get_last_names_of (Authors r) = Ok last_names.
Proof.
  intros Hcs Hts Hr Hp.
  assert (Hc : In (Category r) (map fst ts)).
  { rewrite (tables_of_fst df _ _ Hts).
    apply (categories_In df cs _ Hcs). now apply in_map. }
  apply in_map_iff in Hc. destruct Hc as [[c rows] [Hc Hin]].
  cbn [fst] in Hc. subst c.
  destruct (tables_of_In _ _ _ _ _ Hts Hin) as [_ [named [Hadd ->]]].
  assert (Hcat : In r (category_df df (Category r))).
  { apply category_df_In. now repeat split. }
  rewrite <- (add_last_names_base _ _ Hadd) in Hcat.
  apply in_map_iff in Hcat. destruct Hcat as [[b ln] [Hb Hn]].
  cbn [base] in Hb. subst b.
  pose proof (add_last_names_formatted _ _ Hadd) as Hfmt.
  rewrite Forall_forall in Hfmt. specialize (Hfmt _ Hn). cbn in Hfmt.
  exists (sort_values named), ln. split; [exact Hin |]. split; [| exact Hfmt].
  apply (Permutation_in _ (Permutation_sym (sort_values_perm named))).
  exact Hn.
Qed.





(** ** Further properties of [md_from_csv] *)

(** X7: the conversion ends normally exactly when [sorted] returns on the
    categories and [get_last_names] returns on the author cell of every
    record whose [Category] is not missing; a record with a missing
    category is never handed to [get_last_names]. *)
Theorem md_from_csv_succeeds_iff {dc da dt : dtype}
  (df : DataFrame dc da dt) (md : option string) :
  fst (md_from_csv df md) = Ok tt
  <-> (exists cs, categories df = Ok cs)
      /\ Forall (fun r => present (Category r) -> formattable r) df.
Proof.
  split.
  - intros Hok. destruct (md_from_csv_ok df md Hok) as [cs [ts [Hcs [Hof _]]]].
    split; [now exists cs |].
    pose proof (proj1 (tables_of_ok_iff df cs) (ex_intro _ ts Hof)) as Hall.
    apply Forall_forall. intros r Hr Hp.
    assert (Hc : In (Category r) cs)
      by (apply (categories_In df cs _ Hcs); now apply in_map).
    specialize (Hall _ Hc). rewrite Forall_forall in Hall.
    apply Hall. apply category_df_In. now repeat split.
  - intros [[cs Hcs] Hall].
    destruct (proj2 (tables_of_ok_iff df cs)) as [ts Hts].
    { intros c _. apply Forall_forall. intros r Hr.
      apply category_df_In in Hr. destruct Hr as [Hr [<- Hp]].
      rewrite Forall_forall in Hall. now apply Hall. }
    unfold md_from_csv. rewrite Hcs. cbv zeta.
    now rewrite (write_categories_ok _ _ "" ts Hts).
Qed.



(** X9: after a run that ends normally the destination holds, for every
    input record whose [Category] is not missing, the heading of the
    record's category and the line of the record, made of the last names
    [get_last_names] gives for its author cell, its title in italics and
    its ISBN cell. *)
Theorem every_record_rendered {dc da dt : dtype}
  (df : DataFrame dc da dt) (md : option string) :
  fst (md_from_csv df md) = Ok tt ->
  forall r, In r df -> present (Category r) ->
  exists last_names out,
    get_last_names_of (Authors r) = Ok last_names
    /\ snd (md_from_csv df md) = Some out
    /\ substring_of ("## " ++ Cell.str (Category r) ++ nl ++ nl) out
    /\ substring_of
         ("| " ++ last_names ++ " | *" ++ Cell.str (Title r) ++ "* | "
          ++ isbn_cell (ISBN_10 r) (ISBN_13 r) ++ " |" ++ nl)
         out.
Proof.
  intros Hok r Hr Hp.
  destruct (md_from_csv_ok df md Hok) as [cs [ts [Hcs [Hof [_ Hrun]]]]].
  destruct (record_in_own_table df cs ts r Hcs Hof Hr Hp)
    as [rows [ln [Hin [Hn Hln]]]].
  exists ln, (render ts). split; [exact Hln |].
  split; [now rewrite Hrun |]. split.
  - apply (substring_of_trans _ (render_table (Category r, rows)));
      [apply (heading_in_table (Category r, rows)) | now apply render_table_In].
  - apply (substring_of_trans _ (render_table (Category r, rows)));
      [| now apply render_table_In].
    exact (row_text_In (Category r) (mkNamed r ln) rows Hn).
Qed.

Lemma every_record_rendered_witness :
  fst (md_from_csv example_df None) = Ok tt
  /\ In (book "Physics" "A. Zee Jr." "Group Theory" "No ISBN" "nan") example_df
  /\ exists last_names out,
       get_last_names "A. Zee Jr." = Ok last_names
       /\ snd (md_from_csv example_df None) = Some out
       /\ substring_of ("## Physics" ++ nl ++ nl) out
       /\ substring_of
            ("| " ++ last_names ++ " | *Group Theory* | No ISBN |" ++ nl) out.
Proof.
  assert (Hin : In (book "Physics" "A. Zee Jr." "Group Theory" "No ISBN" "nan")
                  example_df).
  { right. right. right. left. reflexivity. }
  split; [reflexivity |]. split; [exact Hin |].
  exact (every_record_rendered example_df None eq_refl _ Hin eq_refl).
Defined.

(** X10: in a run that ends normally a table has no data row exactly when
    its heading is the missing category; every other table holds at least
    one row, and every row of a table is an input record of the table's
    category. *)
Theorem no_empty_table {dc da dt : dtype}
  (df : DataFrame dc da dt) (md : option string) :
  fst (md_from_csv df md) = Ok tt ->
  exists ts,
    tables df = Ok ts
    /\ snd (md_from_csv df md) = Some (render ts)
    /\ forall category rows,
         In (category, rows) ts ->
         (rows = [] <-> missing category)
         /\ forall n, In n rows -> In (base n) df /\ Category (base n) = category.
Proof.
  intros Hok.
  destruct (md_from_csv_ok df md Hok) as [cs [ts [Hcs [Hof [Hts Hrun]]]]].
  exists ts. split; [exact Hts |]. split; [now rewrite Hrun |].
  intros category rows Hin.
  destruct (tables_of_In _ _ _ _ _ Hof Hin) as [Hc [named [Hadd ->]]].
  pose proof (add_last_names_base _ _ Hadd) as Hbase.
  pose proof (sort_values_perm named) as Hperm.
  split; [split |].
  - intros Hnil. destruct (present_or_missing category) as [Hp | Hm];
      [| exact Hm].
    exfalso. apply (categories_In df cs _ Hcs), in_map_iff in Hc.
    destruct Hc as [r [Hcat Hr]].
    assert (Hrc : In r (category_df df category)).
    { apply category_df_In. now repeat split. }
    rewrite <- Hbase in Hrc. rewrite Hnil in Hperm.
    apply Permutation_nil in Hperm. rewrite Hperm in Hrc. destruct Hrc.
  - intros Hm. rewrite (category_df_missing df category Hm) in Hadd.
    cbn in Hadd. injection Hadd as <-. reflexivity.
  - intros n Hn.
    apply (Permutation_in _ Hperm) in Hn.
    assert (Hb : In (base n) (category_df df category)).
    { rewrite <- Hbase. now apply in_map. }
    apply category_df_In in Hb. tauto.
Qed.

Lemma no_empty_table_witness :
  (fst (md_from_csv example_df None) = Ok tt
   /\ exists ts,
        tables example_df = Ok ts
        /\ snd (md_from_csv example_df None) = Some (render ts)
        /\ forall category rows,
             In (category, rows) ts ->
             (rows = [] <-> missing category)
             /\ forall n, In n rows ->
                  In (base n) example_df /\ Category (base n) = category)
  /\ (fst (md_from_csv missing_category_df None) = Ok tt
      /\ tables missing_category_df = Ok [(None, [])]
      /\ exists ts,
           tables missing_category_df = Ok ts
           /\ snd (md_from_csv missing_category_df None) = Some (render ts)
           /\ forall category rows,
                In (category, rows) ts ->
                (rows = [] <-> missing category)
                /\ forall n, In n rows ->
                     In (base n) missing_category_df
                     /\ Category (base n) = category).
Proof.
  split.
  - split; [reflexivity |].
    exact (no_empty_table example_df None eq_refl).
  - split; [reflexivity |]. split; [reflexivity |].
    exact (no_empty_table missing_category_df None eq_refl).
Defined.

(** X13: when the rows of a category, with their last names, already come
    in ascending order of (last names, title) in the input, their table
    lists them in input order. *)
Theorem sorted_category_keeps_file_order {dc da dt : dtype}
  (df : DataFrame dc da dt) (ts : list (Table dc da dt))
  (category : cell dc) (rows named_df : list (NamedRow dc da dt)) :
  tables df = Ok ts ->
  In (category, rows) ts ->
  add_last_names (category_df df category) = Ok named_df ->
  StronglySorted key_le named_df ->
  rows = named_df /\ map base rows = category_df df category.
Proof.
  unfold tables. intros Hts Hin Hadd Hsorted.
  destruct (categories df) as [cs |]; cbn [bind] in Hts; [| discriminate].
  destruct (tables_of_In _ _ _ _ _ Hts Hin) as [_ [named [Hadd' ->]]].
  rewrite Hadd in Hadd'. injection Hadd' as <-.
  assert (Hid : sort_values named_df = named_df).
  { apply stable_sort_sorted_id. now apply sorted_key_leb_le. }
  rewrite Hid. split; [reflexivity |]. now apply add_last_names_base.
Qed.

Lemma physics_named_sorted : StronglySorted key_le physics_named.
Proof.
  repeat (apply SSorted_cons;
          [| repeat (apply Forall_cons; [left; reflexivity |]);
             apply Forall_nil]).
  apply SSorted_nil.
Defined.

Lemma sorted_category_keeps_file_order_witness :
  tables reordered_df = Ok reordered_tables
  /\ In (Some "Physics", sort_values physics_named) reordered_tables
  /\ add_last_names (category_df reordered_df (Some "Physics"))
     = Ok physics_named
  /\ StronglySorted key_le physics_named
  /\ sort_values physics_named = physics_named
  /\ map base (sort_values physics_named)
     = category_df reordered_df (Some "Physics").
Proof.
  assert (Hin : In (Some "Physics", sort_values physics_named)
                  reordered_tables) by (right; left; reflexivity).
  split; [reflexivity |]. split; [exact Hin |]. split; [reflexivity |].
  split; [exact physics_named_sorted |].
  exact (sorted_category_keeps_file_order reordered_df reordered_tables
           (Some "Physics") (sort_values physics_named) physics_named
           eq_refl Hin eq_refl physics_named_sorted).
Defined.

(** ** Frames with the same sub-frames *)













